(** * Ring-system decomposition and frequency lookup

    A shallow embedding of [useful_rdkit_utils/ring_systems.py]: the
    [RingSystemFinder] pipeline (bond tagging, linker cleavage, fragment
    clean-up), the frequency-table builder [create_ring_dictionary] and
    [RingSystemLookup].

    Python objects live in a store and are passed by reference, exceptions are
    a [Raise] result, and the RDKit services the module calls ([Chem.*]) are
    the fields of the class [Chem]. *)

From Stdlib Require Import Ascii.
From stdpp Require Import base option list strings gmap pretty.

(** ** Exceptions and results *)

Inductive PyError :=
  | AttributeError   (* a method called on [None] *)
  | KeyError         (* a property read that was never set *)
  | ValueError       (* tuple unpacking of the wrong length *)
  | ArgumentError    (* an RDKit call given [None] for a query *)
  | ToolkitError (what : string). (* an exception raised inside an RDKit call *)

Inductive Result (A : Type) :=
  | Ok (a : A)
  | Raise (e : PyError).
Arguments Ok {A} a.
Arguments Raise {A} e.

Definition rbind {A B} (r : Result A) (k : A → Result B) : Result B :=
  match r with Ok a => k a | Raise e => Raise e end.

Notation "'try' x ':=' r 'in' k" := (rbind r (λ x, k))
  (at level 10, x name, r at level 100, k at level 200).
Notation "'try' ' p ':=' r 'in' k" := (rbind r (λ x, match x with p => k end))
  (at level 10, p pattern, r at level 100, k at level 200).

(** The loop [for x in xs: acc = body(acc, x)] whose body may raise. *)
Fixpoint for_each {A S} (body : S → A → Result S) (xs : list A) (acc : S) : Result S :=
  match xs with
  | [] => Ok acc
  | x :: xs' => try acc' := body acc x in for_each body xs' acc'
  end.

(** ** Molecular graphs, as the module reads and writes them *)

Inductive BondType :=
  | UNSPECIFIED | SINGLE | DOUBLE | TRIPLE | QUADRUPLE | AROMATIC | DATIVE | ZERO.

Inductive BondStereo :=
  | STEREONONE | STEREOANY | STEREOZ | STEREOE | STEREOCIS | STEREOTRANS.

Global Instance BondType_eq_dec : EqDecision BondType.
Proof. solve_decision. Defined.
Global Instance BondStereo_eq_dec : EqDecision BondStereo.
Proof. solve_decision. Defined.

(** An atom: atomic number, isotope tag, aromaticity, the number of rings it
    is a member of (RDKit's ring information, computed upstream), and its
    string properties ([SetProp]). *)
Record Atom := mkAtom {
  atomic_num : nat;
  isotope : nat;
  aromatic : bool;
  num_rings : nat;
  atom_props : gmap string string;
}.

(** A bond: its two atom indices, order, ring membership, stereo designation,
    and its boolean properties ([SetBoolProp] / [GetBoolProp]). *)
Record Bond := mkBond {
  begin_idx : nat;
  end_idx : nat;
  bond_type : BondType;
  in_ring : bool;
  stereo : BondStereo;
  bond_props : gmap string bool;
}.

(** A molecule; an atom's index is its position in [atoms], a bond's index its
    position in [bonds]. *)
Record Mol := mkMol {
  atoms : list Atom;
  bonds : list Bond;
}.

Definition GetAtomicNum (atm : Atom) : nat := atomic_num atm.

Definition SetAtomicNum (n : nat) (atm : Atom) : Atom :=
  mkAtom n (isotope atm) (aromatic atm) (num_rings atm) (atom_props atm).

Definition SetIsotope (n : nat) (atm : Atom) : Atom :=
  mkAtom (atomic_num atm) n (aromatic atm) (num_rings atm) (atom_props atm).

Definition SetProp (key val : string) (atm : Atom) : Atom :=
  mkAtom (atomic_num atm) (isotope atm) (aromatic atm) (num_rings atm)
         (<[key := val]> (atom_props atm)).

Definition IsInRing (bnd : Bond) : bool := in_ring bnd.

Definition GetBondType (bnd : Bond) : BondType := bond_type bnd.

Definition SetBoolProp (key : string) (val : bool) (bnd : Bond) : Bond :=
  mkBond (begin_idx bnd) (end_idx bnd) (bond_type bnd) (in_ring bnd) (stereo bnd)
         (<[key := val]> (bond_props bnd)).

(** [GetBoolProp] raises [KeyError] on a property that was never set. *)
Definition GetBoolProp (key : string) (bnd : Bond) : Result bool :=
  match bond_props bnd !! key with
  | Some v => Ok v
  | None => Raise KeyError
  end.

Definition SetStereo (s : BondStereo) (bnd : Bond) : Bond :=
  mkBond (begin_idx bnd) (end_idx bnd) (bond_type bnd) (in_ring bnd) s (bond_props bnd).

Definition touches (i : nat) (bnd : Bond) : bool :=
  (begin_idx bnd =? i) || (end_idx bnd =? i).

(** [atom.GetDegree()]: the number of bonds of the molecule at atom [i]. *)
Definition GetDegree (mol : Mol) (i : nat) : nat :=
  length (filter (λ bnd, touches i bnd = true) (bonds mol)).

Definition joins (a b : nat) (bnd : Bond) : bool :=
  ((begin_idx bnd =? a) && (end_idx bnd =? b)) ||
  ((begin_idx bnd =? b) && (end_idx bnd =? a)).

Fixpoint find_index {A} (p : A → bool) (l : list A) : option nat :=
  match l with
  | [] => None
  | x :: l' => if p x then Some 0 else S <$> find_index p l'
  end.

(** [mol.GetBondBetweenAtoms(a, b)]: the index of the bond joining [a] and
    [b], [None] when there is none. *)
Definition GetBondBetweenAtoms (mol : Mol) (a b : nat) : option nat :=
  find_index (joins a b) (bonds mol).

Definition with_bonds (mol : Mol) (bs : list Bond) : Mol := mkMol (atoms mol) bs.
Definition with_atoms (mol : Mol) (ats : list Atom) : Mol := mkMol ats (bonds mol).

(** ** Substructure patterns

    The fragment of SMARTS the module's two patterns are written in: a
    bracketed atom is a [,]-separated list of alternatives, each a
    juxtaposition of primitives [#n] (atomic number), [R] (in a ring), [Rn]
    (in exactly [n] rings) and the aliphatic element symbols [C], [N], [O],
    [S]; a pattern is one atom, or two atoms joined by [=]. *)

Inductive AtomPrimitive :=
  | AtomicNumber (n : nat)
  | Aliphatic (n : nat)
  | InRing
  | RingCount (n : nat).

Definition AtomQuery := list (list AtomPrimitive).

Inductive Pattern :=
  | PatAtom (q : AtomQuery)
  | PatDouble (q1 q2 : AtomQuery).

Definition is_digit (c : ascii) : bool :=
  let n := nat_of_ascii c in (48 <=? n) && (n <=? 57).

Fixpoint read_digits (acc : nat) (s : list ascii) : nat * list ascii :=
  match s with
  | c :: s' => if is_digit c then read_digits (10 * acc + (nat_of_ascii c - 48)) s'
               else (acc, s)
  | [] => (acc, s)
  end.

Definition starts_with_digit (s : list ascii) : bool :=
  match s with c :: _ => is_digit c | [] => false end.

(** One primitive at the head of [s], with the rest of the input. *)
Definition read_primitive (s : list ascii) : option (AtomPrimitive * list ascii) :=
  match s with
  | "#"%char :: s' =>
      if starts_with_digit s'
      then let '(n, rest) := read_digits 0 s' in Some (AtomicNumber n, rest)
      else None
  | "R"%char :: s' =>
      if starts_with_digit s'
      then let '(n, rest) := read_digits 0 s' in Some (RingCount n, rest)
      else Some (InRing, s')
  | "C"%char :: s' => Some (Aliphatic 6, s')
  | "N"%char :: s' => Some (Aliphatic 7, s')
  | "O"%char :: s' => Some (Aliphatic 8, s')
  | "S"%char :: s' => Some (Aliphatic 16, s')
  | _ => None
  end.

(** The inside of a bracket up to its closing [']']: [cur] is the alternative
    being read, [done] the alternatives already closed by a [,]. *)
Fixpoint read_bracket (fuel : nat) (done : AtomQuery) (cur : list AtomPrimitive)
    (s : list ascii) : option (AtomQuery * list ascii) :=
  match fuel with
  | 0 => None
  | S fuel' =>
      match s with
      | "]"%char :: rest =>
          match cur with [] => None | _ => Some (done ++ [cur], rest) end
      | ","%char :: rest =>
          match cur with [] => None | _ => read_bracket fuel' (done ++ [cur]) [] rest end
      | _ =>
          match read_primitive s with
          | Some (p, rest) => read_bracket fuel' done (cur ++ [p]) rest
          | None => None
          end
      end
  end.

Definition read_atom (s : list ascii) : option (AtomQuery * list ascii) :=
  match s with
  | "["%char :: s' => read_bracket (S (length s')) [] [] s'
  | _ => None
  end.

(** [Chem.MolFromSmarts]: [None] on text outside the fragment. *)
Definition MolFromSmarts (smarts : string) : option Pattern :=
  match read_atom (String.list_ascii_of_string smarts) with
  | Some (q1, []) => Some (PatAtom q1)
  | Some (q1, "="%char :: s') =>
      match read_atom s' with
      | Some (q2, []) => Some (PatDouble q1 q2)
      | _ => None
      end
  | _ => None
  end.

Definition primitive_matches (atm : Atom) (p : AtomPrimitive) : bool :=
  match p with
  | AtomicNumber n => atomic_num atm =? n
  | Aliphatic n => (atomic_num atm =? n) && negb (aromatic atm)
  | InRing => 0 <? num_rings atm
  | RingCount n => num_rings atm =? n
  end.

Definition atom_matches (q : AtomQuery) (atm : Atom) : bool :=
  existsb (forallb (primitive_matches atm)) q.

Definition atom_at_matches (mol : Mol) (q : AtomQuery) (i : nat) : bool :=
  match atoms mol !! i with
  | Some atm => atom_matches q atm
  | None => false
  end.

(** The match of a two-atom pattern on one bond, if any: the atoms in pattern
    order. One tuple per bond, as RDKit's default [uniquify] gives. *)
Definition match_on_bond (mol : Mol) (q1 q2 : AtomQuery) (bnd : Bond) : option (list nat) :=
  if bool_decide (bond_type bnd = DOUBLE) then
    if atom_at_matches mol q1 (begin_idx bnd) && atom_at_matches mol q2 (end_idx bnd)
    then Some [begin_idx bnd; end_idx bnd]
    else if atom_at_matches mol q1 (end_idx bnd) && atom_at_matches mol q2 (begin_idx bnd)
    then Some [end_idx bnd; begin_idx bnd]
    else None
  else None.

Definition pattern_matches (mol : Mol) (pat : Pattern) : list (list nat) :=
  match pat with
  | PatAtom q =>
      (λ i, [i]) <$> filter (λ i, atom_at_matches mol q i = true) (seq 0 (length (atoms mol)))
  | PatDouble q1 q2 => omap (match_on_bond mol q1 q2) (bonds mol)
  end.

(** [mol.GetSubstructMatches(pat)]: the tuples of atom indices matching the
    pattern. (RDKit stops at 1000 matches by default and lists the tuples in
    an order of its own; neither the cap nor that order is modelled, and
    nothing below is stated about the number or the order of the tuples.) *)
Definition GetSubstructMatches (mol : Mol) (pat : option Pattern) : Result (list (list nat)) :=
  match pat with
  | Some p => Ok (pattern_matches mol p)
  | None => Raise ArgumentError
  end.

(** [mol.HasSubstructMatch(pat)]. *)
Definition HasSubstructMatch (mol : Mol) (pat : option Pattern) : Result bool :=
  try ms := GetSubstructMatches mol pat in
  Ok (match ms with [] => false | _ => true end).

(** ** [RingSystemFinder.__init__]: the two patterns *)

Definition ring_db_pat : option Pattern := MolFromSmarts "[#6R,#18R]=[OR0,SR0,CR0,NR0]".
Definition ring_atom_pat : option Pattern := MolFromSmarts "[R]".

Example ring_db_pat_parsed :
  ring_db_pat =
  Some (PatDouble [[AtomicNumber 6; InRing]; [AtomicNumber 18; InRing]]
                  [[Aliphatic 8; RingCount 0]; [Aliphatic 16; RingCount 0];
                   [Aliphatic 6; RingCount 0]; [Aliphatic 7; RingCount 0]]).
Proof. reflexivity. Qed.

Example ring_atom_pat_parsed : ring_atom_pat = Some (PatAtom [[InRing]]).
Proof. reflexivity. Qed.

(** ** The store and the monad of the module's methods

    A Python name holds a reference to a molecule or [None]. A method runs on
    the store of all molecule objects; what it wrote stays written when it
    raises. *)

Abbreviation loc := nat (only parsing).
Abbreviation PyRef := (option nat) (only parsing).
Abbreviation Store := (list Mol) (only parsing).

Definition M (A : Type) : Type := Store → Result A * Store.

Definition ret {A} (a : A) : M A := λ σ, (Ok a, σ).

Definition raise {A} (e : PyError) : M A := λ σ, (Raise e, σ).

Definition bind {A B} (c : M A) (k : A → M B) : M B :=
  λ σ, match c σ with
       | (Ok a, σ') => k a σ'
       | (Raise e, σ') => (Raise e, σ')
       end.

Notation "'do' x <- c ; k" := (bind c (λ x, k))
  (at level 10, x name, c at level 100, k at level 200).

Definition lift {A} (r : Result A) : M A := λ σ, (r, σ).

(** Reading the object a name refers to; on [None] any method call raises
    [AttributeError]. ([InvalidRef] stands for a reference outside the store,
    which no run from a reference of the store produces.) *)
Definition InvalidRef : PyError := ToolkitError "invalid reference".

Definition deref (r : PyRef) : M Mol :=
  match r with
  | None => raise AttributeError
  | Some l => λ σ, match σ !! l with
                   | Some m => (Ok m, σ)
                   | None => (Raise InvalidRef, σ)
                   end
  end.

Definition write (l : loc) (m : Mol) : M unit := λ σ, (Ok (), <[l := m]> σ).

(** A new object. *)
Definition alloc (m : Mol) : M PyRef := λ σ, (Ok (Some (length σ)), σ ++ [m]).

(** A method that changes the object [r] refers to, where it stands: [f]
    gives the object's state after the call. When [f] raises the object is
    left as it was; the calls run this way either never raise (tagging, the
    loop over the atoms, the stereo repair) or run on an object that was just
    created ([SanitizeMol]). *)
Definition in_place (r : PyRef) (f : Mol → Result Mol) : M unit :=
  do m <- deref r;
  do m' <- lift (f m);
  match r with
  | Some l => write l m'
  | None => raise AttributeError
  end.

Fixpoint for_eachM {A S} (body : S → A → M S) (xs : list A) (acc : S) : M S :=
  match xs with
  | [] => ret acc
  | x :: xs' => do acc' <- body acc x; for_eachM body xs' acc'
  end.

Fixpoint mapM {A B} (f : A → M B) (xs : list A) : M (list B) :=
  match xs with
  | [] => ret []
  | x :: xs' => do y <- f x; do ys <- mapM f xs'; ret (y :: ys)
  end.

(** ** The RDKit services ([from rdkit import Chem])

    Each takes the state of the molecule it is given and leaves that molecule
    as it is, except [SanitizeMol], which works in place: its result is the
    molecule's new state. [MolFromSmiles] returns [None] on text it cannot
    parse; the others may raise. The properties below hold for every
    provider of these services. *)
Class Chem := {
  MolFromSmiles : string → option Mol;
  MolToSmiles : Mol → Result string;
  FragmentOnBonds : Mol → list nat → Result Mol;
  SanitizeMol : Mol → Result Mol;
  GetMolFrags : Mol → Result (list Mol);
  RemoveAllHs : Mol → Result Mol;
}.

(** An item of a returned Python list: a molecule object or a string. *)
Inductive PyItem :=
  | MolItem (r : PyRef)
  | StrItem (s : string).

Global Instance PyItem_eq_dec : EqDecision PyItem.
Proof. solve_decision. Defined.

Global Instance PyItem_countable : Countable PyItem.
Proof.
  apply (inj_countable' (λ x, match x with MolItem r => inl r | StrItem s => inr s end)
                        (λ y, match y with inl r => MolItem r | inr s => StrItem s end)).
  by intros [].
Defined.

Section RingSystems.
Context `{rdkit : Chem}.

(** ** [RingSystemFinder.tag_bonds_to_preserve] *)

Definition unpack2 (t : list nat) : Result (nat * nat) :=
  match t with
  | [a; b] => Ok (a, b)
  | _ => Raise ValueError
  end.

(** The body of the second loop: [bgn, end = match], then the bond between
    the two atoms is marked. *)
Definition protect_match (mol : Mol) (match_ : list nat) : Result Mol :=
  try ' (bgn, end_) := unpack2 match_ in
  match GetBondBetweenAtoms mol bgn end_ with
  | Some i => Ok (with_bonds mol (alter (SetBoolProp "protected" true) i (bonds mol)))
  | None => Raise AttributeError
  end.

(** What the method does to the molecule it is given. *)
Definition tag_bonds_to_preserve_on (mol : Mol) : Result Mol :=
  let mol := with_bonds mol (SetBoolProp "protected" false <$> bonds mol) in
  try matches := GetSubstructMatches mol ring_db_pat in
  for_each protect_match matches mol.

Definition tag_bonds_to_preserve (mol : PyRef) : M unit :=
  in_place mol tag_bonds_to_preserve_on.

(** ** [RingSystemFinder.cleave_linker_bonds] *)

(** The test of the loop, with Python's left-to-right [and]: the property is
    read only on a bond outside every ring. *)
Definition is_linker_bond (bnd : Bond) : Result bool :=
  if negb (IsInRing bnd) then
    try p := GetBoolProp "protected" bnd in
    Ok (negb p && bool_decide (GetBondType bnd = SINGLE))
  else Ok false.

(** [frag_bond_list] over the bonds from index [idx] on ([idx] is
    [bnd.GetIdx()] of the first). *)
Fixpoint frag_bonds_from (idx : nat) (bnds : list Bond) : Result (list nat) :=
  match bnds with
  | [] => Ok []
  | bnd :: rest =>
      try cut := is_linker_bond bnd in
      try l := frag_bonds_from (S idx) rest in
      Ok (if cut then idx :: l else l)
  end.

Definition frag_bond_list (mol : Mol) : Result (list nat) :=
  frag_bonds_from 0 (bonds mol).

Definition cleave_linker_bonds (mol : PyRef) : M PyRef :=
  do m <- deref mol;
  do frag_bond_list <- lift (frag_bond_list m);
  if negb (length frag_bond_list =? 0) then
    do fm <- lift (FragmentOnBonds m frag_bond_list);
    do frag_mol <- alloc fm;
    do _ <- in_place frag_mol SanitizeMol;
    ret frag_mol
  else ret mol.

(** ** [RingSystemFinder.fix_bond_stereo] *)

(** One step of the loop. [GetDegree] reads the endpoints of the bonds only,
    which [SetStereo] leaves alone, so every step sees the degrees of [mol]. *)
Definition fix_bond (mol : Mol) (bnd : Bond) : Bond :=
  if bool_decide (GetBondType bnd = DOUBLE) then
    if (GetDegree mol (begin_idx bnd) =? 1) || (GetDegree mol (end_idx bnd) =? 1)
    then SetStereo STEREONONE bnd
    else bnd
  else bnd.

Definition fix_bond_stereo_on (mol : Mol) : Mol :=
  with_bonds mol (fix_bond mol <$> bonds mol).

Definition fix_bond_stereo (mol : PyRef) : M PyRef :=
  do _ <- in_place mol (λ m, Ok (fix_bond_stereo_on m));
  ret mol.

(** ** [RingSystemFinder.cleanup_fragments] *)

(** The body of the loop over [frag.GetAtoms()]. *)
Definition cleanup_atom (keep_dummy : bool) (atm : Atom) : Atom :=
  if GetAtomicNum atm =? 0 then
    SetIsotope 0 (if keep_dummy then SetProp "atomLabel" "R" atm
                  else SetAtomicNum 1 atm)
  else atm.

Definition cleanup_atoms_on (keep_dummy : bool) (frag : Mol) : Mol :=
  with_atoms frag (cleanup_atom keep_dummy <$> atoms frag).

(** The body of the loop over [frag_list]. *)
Definition cleanup_fragment (keep_dummy : bool) (ring_system_list : list PyRef)
    (frag : PyRef) : M (list PyRef) :=
  do f <- deref frag;
  do has_ring <- lift (HasSubstructMatch f ring_atom_pat);
  if has_ring then
    do _ <- in_place frag (λ m, Ok (cleanup_atoms_on keep_dummy m));
    do f <- deref frag;
    do noh <- lift (RemoveAllHs f);
    do frag <- alloc noh;
    do frag <- fix_bond_stereo frag;
    ret (ring_system_list ++ [frag])
  else ret ring_system_list.

Definition cleanup_fragments (mol : PyRef) (keep_dummy : bool) : M (list PyRef) :=
  do m <- deref mol;
  do frags <- lift (GetMolFrags m);
  do frag_list <- mapM alloc frags;
  for_eachM (cleanup_fragment keep_dummy) frag_list [].

(** ** [RingSystemFinder.find_ring_systems] *)

Definition to_smiles (x : PyRef) : M PyItem :=
  do m <- deref x;
  do s <- lift (MolToSmiles m);
  ret (StrItem s).

Definition find_ring_systems (mol : PyRef) (keep_dummy as_mols : bool) : M (list PyItem) :=
  do _ <- tag_bonds_to_preserve mol;
  do frag_mol <- cleave_linker_bonds mol;
  do output_list <- cleanup_fragments frag_mol keep_dummy;
  if negb as_mols then mapM to_smiles output_list
  else ret (MolItem <$> output_list).

(** [Chem.MolFromSmiles(smi)] as a Python value: a new molecule or [None]. *)
Definition parse_smiles (smi : string) : M PyRef :=
  match MolFromSmiles smi with
  | Some m => alloc m
  | None => ret None
  end.

(** ** [create_ring_dictionary] *)

(** [pd.Series(l).value_counts()], as an unordered table. *)
Definition value_counts (l : list PyItem) : gmap PyItem nat :=
  foldr (λ x t, <[x := S (default 0 (t !! x))]> t) ∅ l.

(** The body of the loop over [df.SMILES]. *)
Definition ring_dictionary_row (ring_system_smiles_list : list PyItem) (smi : string)
    : M (list PyItem) :=
  do mol <- parse_smiles smi;
  do found <- find_ring_systems mol false false;
  ret (ring_system_smiles_list ++ found).

(** [df] is the input file read as rows [(SMILES, Name)]; the result is the
    table written to [output_csv]. *)
Definition create_ring_dictionary (df : list (string * string)) : M (gmap PyItem nat) :=
  do ring_system_smiles_list <- for_eachM ring_dictionary_row (fst <$> df) [];
  ret (value_counts ring_system_smiles_list).

(** ** [RingSystemLookup] *)

Record RingSystemLookup := mkLookup {
  ring_dict : gmap string Z;
}.

(** [d.get(x)]: the keys of the table are strings. *)
Definition dict_get (d : gmap string Z) (x : PyItem) : option Z :=
  match x with
  | StrItem s => d !! s
  | MolItem _ => None
  end.

(** [v or 0]. *)
Definition or_zero (v : option Z) : Z :=
  match v with
  | Some c => if (c =? 0)%Z then 0%Z else c
  | None => 0%Z
  end.

Definition process_mol (self : RingSystemLookup) (mol : PyRef) : M (list (PyItem * Z)) :=
  match mol with
  | Some _ =>
      do ring_system_list <- find_ring_systems mol false false;
      ret ((λ x, (x, or_zero (dict_get (ring_dict self) x))) <$> ring_system_list)
  | None => ret []
  end.

Definition process_smiles (self : RingSystemLookup) (smi : string) : M (list (PyItem * Z)) :=
  do mol <- parse_smiles smi;
  process_mol self mol.

(** ** [test_ring_system_lookup] *)

(** [min(l)]. *)
Definition py_min (l : list Z) : Result Z :=
  match l with
  | [] => Raise ValueError
  | x :: xs => Ok (foldl Z.min x xs)
  end.

(** The body of the loop over [df.SMILES]: the value appended to
    [min_freq_list]. *)
Definition min_freq (ring_system_lookup : RingSystemLookup) (smi : string) : M Z :=
  do freq_list <- process_smiles ring_system_lookup smi;
  if negb (length freq_list =? 0) then lift (py_min (snd <$> freq_list))
  else ret (-1)%Z.

(** The column [min_freq] of the output, for the rows of [df] and the table
    [RingSystemLookup()] loads. *)
Definition test_ring_system_lookup (ring_system_lookup : RingSystemLookup)
    (df : list (string * string)) : M (list Z) :=
  mapM (min_freq ring_system_lookup) (fst <$> df).

End RingSystems.

(** ** A small provider of the RDKit services

    Enough of the toolkit to run the module on the molecules below: bond
    cutting with a placeholder atom on each side, connected components,
    removal of hydrogens, a line notation in place of canonical SMILES, and a
    reader that knows a handful of structures. *)
Module Toolkit.

Definition atom (z : nat) (arom : bool) (rings : nat) : Atom := mkAtom z 0 arom rings ∅.
Definition bond (a b : nat) (ty : BondType) (ring : bool) : Bond :=
  mkBond a b ty ring STEREONONE ∅.

(** A placeholder atom, tagged with the index of the atom it stands for. *)
Definition dummy (label : nat) : Atom := mkAtom 0 label false 0 ∅.

Fixpoint cut_bonds (mol : Mol) (cuts : list nat) (next : nat)
    : Result (list Atom * list Bond) :=
  match cuts with
  | [] => Ok ([], [])
  | i :: cuts' =>
      match bonds mol !! i with
      | Some bnd =>
          try ' (ats, bs) := cut_bonds mol cuts' (next + 2) in
          Ok (dummy (end_idx bnd) :: dummy (begin_idx bnd) :: ats,
              mkBond (begin_idx bnd) next (bond_type bnd) false STEREONONE ∅ ::
              mkBond (end_idx bnd) (S next) (bond_type bnd) false STEREONONE ∅ :: bs)
      | None => Raise (ToolkitError "bond index out of range")
      end
  end.

Definition kept_bonds (mol : Mol) (cuts : list nat) : list Bond :=
  snd <$> filter (λ ib, ib.1 ∉ cuts) (imap pair (bonds mol)).

Definition fragment_on_bonds (mol : Mol) (cuts : list nat) : Result Mol :=
  try ' (ats, bs) := cut_bonds mol cuts (length (atoms mol)) in
  Ok (mkMol (atoms mol ++ ats) (kept_bonds mol cuts ++ bs)).

(** The molecule on the atoms [members], renumbered in that order, with the
    bonds that have both ends among them. *)
Definition renumber (members : list nat) (bnd : Bond) : option Bond :=
  a ← find_index (λ i, i =? begin_idx bnd) members;
  b ← find_index (λ i, i =? end_idx bnd) members;
  Some (mkBond a b (bond_type bnd) (in_ring bnd) (stereo bnd) (bond_props bnd)).

Definition submol (mol : Mol) (members : list nat) : Mol :=
  mkMol (omap (λ i, atoms mol !! i) members) (omap (renumber members) (bonds mol)).

Definition relax (lab : list nat) (bnd : Bond) : list nat :=
  match lab !! begin_idx bnd, lab !! end_idx bnd with
  | Some x, Some y => <[begin_idx bnd := x `min` y]> (<[end_idx bnd := x `min` y]> lab)
  | _, _ => lab
  end.

(** Each atom labelled with the least index of its connected component. *)
Definition component_labels (mol : Mol) : list nat :=
  Nat.iter (length (atoms mol)) (λ lab, foldl relax lab (bonds mol))
           (seq 0 (length (atoms mol))).

Definition get_mol_frags (mol : Mol) : list Mol :=
  let lab := component_labels mol in
  let idxs := seq 0 (length (atoms mol)) in
  (λ c, submol mol (filter (λ i, lab !! i = Some c) idxs))
    <$> filter (λ i, lab !! i = Some i) idxs.

Definition remove_all_hs (mol : Mol) : Mol :=
  submol mol (filter (λ i, atomic_num <$> atoms mol !! i ≠ Some 1)
                     (seq 0 (length (atoms mol)))).

Definition symbol (atm : Atom) : string :=
  match atomic_num atm with
  | 0 => "*"
  | 1 => "H"
  | 6 => if aromatic atm then "c" else "C"
  | 7 => if aromatic atm then "n" else "N"
  | 8 => if aromatic atm then "o" else "O"
  | 16 => if aromatic atm then "s" else "S"
  | n => "#" +:+ pretty n
  end.

Definition bond_symbol (ty : BondType) : string :=
  match ty with
  | SINGLE => "-"
  | DOUBLE => "="
  | TRIPLE => "#"
  | AROMATIC => ":"
  | _ => "~"
  end.

Definition bond_text (bnd : Bond) : string :=
  " " +:+ pretty (begin_idx bnd) +:+ bond_symbol (bond_type bnd) +:+ pretty (end_idx bnd).

(** The atoms in order, then the bonds. *)
Definition line_notation (mol : Mol) : string :=
  String.concat "" (symbol <$> atoms mol) +:+ String.concat "" (bond_text <$> bonds mol).

Definition ring6 (ty : BondType) : list Bond :=
  [bond 0 1 ty true; bond 1 2 ty true; bond 2 3 ty true;
   bond 3 4 ty true; bond 4 5 ty true; bond 5 0 ty true].

Definition benzene : Mol := mkMol (replicate 6 (atom 6 true 1)) (ring6 AROMATIC).

Definition ethylbenzene : Mol :=
  mkMol (replicate 6 (atom 6 true 1) ++ [atom 6 false 0; atom 6 false 0])
        (ring6 AROMATIC ++ [bond 0 6 SINGLE false; bond 6 7 SINGLE false]).

Definition cyclohexanone : Mol :=
  mkMol (replicate 6 (atom 6 false 1) ++ [atom 8 false 0])
        (ring6 SINGLE ++ [bond 0 6 DOUBLE false]).

(** Thiolane 1-oxide: a ring sulfur (atom 0) double-bonded to an oxygen
    outside the ring (atom 5). *)
Definition thiolane_oxide : Mol :=
  mkMol (atom 16 false 1 :: replicate 4 (atom 6 false 1) ++ [atom 8 false 0])
        [bond 0 1 SINGLE true; bond 1 2 SINGLE true; bond 2 3 SINGLE true;
         bond 3 4 SINGLE true; bond 4 0 SINGLE true; bond 0 5 DOUBLE false].

Definition ethanol : Mol :=
  mkMol [atom 6 false 0; atom 6 false 0; atom 8 false 0]
        [bond 0 1 SINGLE false; bond 1 2 SINGLE false].

Definition known_structures : list (string * Mol) :=
  [("c1ccccc1", benzene); ("CCc1ccccc1", ethylbenzene); ("O=C1CCCCC1", cyclohexanone);
   ("O=S1CCCC1", thiolane_oxide); ("CCO", ethanol)].

Fixpoint lookup_structure (smi : string) (known : list (string * Mol)) : option Mol :=
  match known with
  | [] => None
  | (text, mol) :: known' =>
      if String.eqb text smi then Some mol else lookup_structure smi known'
  end.

Definition mol_from_smiles (smi : string) : option Mol :=
  lookup_structure smi known_structures.

Global Instance provider : Chem := {|
  MolFromSmiles := mol_from_smiles;
  MolToSmiles mol := Ok (line_notation mol);
  FragmentOnBonds := fragment_on_bonds;
  SanitizeMol mol := Ok mol;
  GetMolFrags mol := Ok (get_mol_frags mol);
  RemoveAllHs mol := Ok (remove_all_hs mol);
|}.

End Toolkit.

(** * Properties *)

(** ** Lists and results *)

Lemma find_index_Some {A} (p : A → bool) (l : list A) (i : nat) :
  find_index p l = Some i → ∃ x, l !! i = Some x ∧ p x = true.
Proof.
  revert i. induction l as [|y l IH]; intros i; simpl; [done|].
  destruct (p y) eqn:Hy.
  - intros [= <-]. eauto.
  - destruct (find_index p l) as [j|]; simpl; [|done].
    intros [= <-]. destruct (IH j eq_refl) as (x & ? & ?). eauto.
Qed.

Lemma find_index_exists {A} (p : A → bool) (l : list A) (x : A) :
  x ∈ l → p x = true → ∃ i, find_index p l = Some i.
Proof.
  induction l as [|y l IH]; simpl; [by intros ?%elem_of_nil|].
  intros [->|Hin]%elem_of_cons Hp.
  - rewrite Hp. eauto.
  - destruct (p y); [eauto|]. destruct (IH Hin Hp) as [i ->]. simpl. eauto.
Qed.

Lemma find_index_ext {A} (p : A → bool) (l l' : list A) :
  Forall2 (λ x y, p x = p y) l l' → find_index p l = find_index p l'.
Proof.
  induction 1 as [|x y l l' Hxy _ IH]; simpl; [done|].
  rewrite Hxy, IH. done.
Qed.

Section Properties.
Context `{rdkit : Chem}.

(** ** The cut set *)

(** A bond the Fragmenter cuts: outside every ring, its [protected] flag
    false, of single order. *)
Definition cuttable (bnd : Bond) : Prop :=
  IsInRing bnd = false ∧ GetBoolProp "protected" bnd = Ok false ∧ GetBondType bnd = SINGLE.

(** The flag has been set on the bond. *)
Definition flagged (bnd : Bond) : Prop := is_Some (bond_props bnd !! "protected").

Lemma is_linker_bond_spec (bnd : Bond) :
  flagged bnd → ∃ cut, is_linker_bond bnd = Ok cut ∧ (cut = true ↔ cuttable bnd).
Proof.
  intros [v Hv]. unfold is_linker_bond, cuttable, GetBoolProp.
  rewrite Hv. destruct (IsInRing bnd); simpl.
  - exists false. split; [done|]. split; [done|]. by intros [? _].
  - exists (negb v && bool_decide (GetBondType bnd = SINGLE)). split; [done|].
    rewrite andb_true_iff, negb_true_iff, bool_decide_eq_true.
    split.
    + intros [-> ?]. done.
    + intros (_ & [= ->] & ?). done.
Qed.

Lemma frag_bonds_from_spec (bnds : list Bond) (idx : nat) :
  Forall flagged bnds →
  ∃ cuts, frag_bonds_from idx bnds = Ok cuts ∧
    ∀ i, i ∈ cuts ↔ idx ≤ i ∧ ∃ bnd, bnds !! (i - idx) = Some bnd ∧ cuttable bnd.
Proof.
  intros Hfl. revert idx. induction Hfl as [|bnd bnds Hb _ IH]; intros idx; simpl.
  - exists []. split; [done|]. intros i. split; [by intros ?%elem_of_nil|].
    intros (_ & ? & ? & _). done.
  - destruct (is_linker_bond_spec bnd Hb) as (cut & -> & Hcut).
    destruct (IH (S idx)) as (l & -> & Hl). simpl.
    exists (if cut then idx :: l else l). split; [done|].
    intros i. transitivity ((i = idx ∧ cuttable bnd) ∨ i ∈ l).
    + destruct cut.
      * rewrite elem_of_cons. apply proj1 in Hcut. specialize (Hcut eq_refl). tauto.
      * split; [tauto|]. intros [[_ Hc]|?]; [|done]. by apply Hcut in Hc.
    + rewrite Hl. split.
      * intros [[-> Hc]|(Hle & b & Hb' & Hc)].
        -- split; [lia|]. exists bnd. by rewrite Nat.sub_diag.
        -- split; [lia|]. exists b. split; [|done].
           replace (i - idx) with (S (i - S idx)) by lia. done.
      * intros (Hle & b & Hb' & Hc).
        destruct (decide (i = idx)) as [->|Hne].
        -- rewrite Nat.sub_diag in Hb'. simpl in Hb'. left. by simplify_eq.
        -- right. split; [lia|]. exists b. split; [|done].
           replace (i - idx) with (S (i - S idx)) in Hb' by lia. done.
Qed.

(** Every bond of the molecule has its [protected] flag set. *)
Definition flags_set (mol : Mol) : Prop := Forall flagged (bonds mol).

Lemma frag_bond_list_spec (mol : Mol) :
  flags_set mol →
  ∃ cuts, frag_bond_list mol = Ok cuts ∧
    ∀ i, i ∈ cuts ↔ ∃ bnd, bonds mol !! i = Some bnd ∧ cuttable bnd.
Proof.
  intros Hfl. destruct (frag_bonds_from_spec (bonds mol) 0 Hfl) as (cuts & Hc & Hin).
  exists cuts. split; [done|]. intros i. rewrite Hin, Nat.sub_0_r.
  split; [tauto|]. intros ?. split; [lia|done].
Qed.

(** C1. On a molecule whose bonds all carry the flag, the cut set is defined
    and holds exactly the indices of the bonds that are outside every ring,
    not protected and single. When it is empty, [cleave_linker_bonds] returns
    the very reference it was given and leaves the store as it was, whatever
    the toolkit's [FragmentOnBonds] would do; otherwise it is the set handed
    to [FragmentOnBonds], whose result is a new object, sanitized in place. *)
Theorem cleave_linker_bonds_cut_set (σ : Store) (l : loc) (mol : Mol) :
  σ !! l = Some mol →
  flags_set mol →
  ∃ cuts,
    frag_bond_list mol = Ok cuts ∧
    (∀ i, i ∈ cuts ↔
          ∃ bnd, bonds mol !! i = Some bnd ∧
                 IsInRing bnd = false ∧
                 GetBoolProp "protected" bnd = Ok false ∧
                 GetBondType bnd = SINGLE) ∧
    (cuts = [] → cleave_linker_bonds (Some l) σ = (Ok (Some l), σ)) ∧
    (cuts ≠ [] →
     ∀ fm fm', FragmentOnBonds mol cuts = Ok fm → SanitizeMol fm = Ok fm' →
       cleave_linker_bonds (Some l) σ = (Ok (Some (length σ)), σ ++ [fm'])).
Proof.
  intros Hl Hfl. destruct (frag_bond_list_spec mol Hfl) as (cuts & Hc & Hin).
  exists cuts. split; [done|]. split; [done|].
  unfold cleave_linker_bonds, bind, deref, lift. rewrite Hl, Hc. split.
  - intros ->. done.
  - intros Hne fm fm' Hfm Hsan.
    destruct cuts as [|c cuts]; [done|]. simpl. rewrite Hfm.
    unfold in_place, alloc, bind, deref, lift, write, ret.
    rewrite lookup_app_r, Nat.sub_diag by lia. simpl. rewrite Hsan.
    f_equal. rewrite insert_app_r_alt, Nat.sub_diag by lia. done.
Qed.

(** ** Tagging *)

(** [bnd'] is [bnd] with its [protected] flag raised, or [bnd] itself. *)
Definition protects (bnd bnd' : Bond) : Prop :=
  bnd' = bnd ∨ bnd' = SetBoolProp "protected" true bnd.

(** [bnd'] is [bnd] with its [protected] flag overwritten. *)
Definition retagged (bnd bnd' : Bond) : Prop :=
  ∃ v, bnd' = SetBoolProp "protected" v bnd.

Lemma SetBoolProp_twice (k : string) (v w : bool) (bnd : Bond) :
  SetBoolProp k v (SetBoolProp k w bnd) = SetBoolProp k v bnd.
Proof. unfold SetBoolProp. simpl. by rewrite insert_insert_eq. Qed.

Lemma protects_trans (b1 b2 b3 : Bond) : protects b1 b2 → protects b2 b3 → protects b1 b3.
Proof.
  intros [->| ->] [->| ->]; unfold protects; auto.
  rewrite SetBoolProp_twice. auto.
Qed.

Lemma protects_joins (a b : nat) (bnd bnd' : Bond) :
  protects bnd bnd' → joins a b bnd = joins a b bnd'.
Proof. by intros [->| ->]. Qed.

Lemma protects_true (bnd bnd' : Bond) :
  protects bnd bnd' →
  bond_props bnd !! "protected" = Some true → bond_props bnd' !! "protected" = Some true.
Proof. intros [->| ->]; [done|]. intros _. simpl. apply lookup_insert_eq. Qed.

Lemma protects_retagged (b1 b2 b3 : Bond) : retagged b1 b2 → protects b2 b3 → retagged b1 b3.
Proof.
  intros [v ->] [->| ->]; [by exists v|].
  exists true. apply SetBoolProp_twice.
Qed.

Lemma Forall2_protects_refl (l : list Bond) : Forall2 protects l l.
Proof. apply Forall_Forall2_diag, Forall_forall. intros. by left. Qed.

Lemma GetBondBetweenAtoms_protects (m m' : Mol) (a b : nat) :
  Forall2 protects (bonds m) (bonds m') →
  GetBondBetweenAtoms m' a b = GetBondBetweenAtoms m a b.
Proof.
  intros H. unfold GetBondBetweenAtoms. symmetry. apply find_index_ext.
  eapply Forall2_impl; [done|]. intros. by apply protects_joins.
Qed.

(** A tuple the second loop can process on [m]: two atoms joined by a bond. *)
Definition bonded_pair (m : Mol) (t : list nat) : Prop :=
  ∃ a b i, t = [a; b] ∧ GetBondBetweenAtoms m a b = Some i.

Lemma bonded_pair_protects (m m' : Mol) (t : list nat) :
  Forall2 protects (bonds m) (bonds m') → bonded_pair m t → bonded_pair m' t.
Proof.
  intros H (a & b & i & -> & Hi). exists a, b, i. split; [done|].
  by rewrite (GetBondBetweenAtoms_protects m m').
Qed.

Lemma protect_match_spec (m : Mol) (a b i : nat) :
  GetBondBetweenAtoms m a b = Some i →
  ∃ m', protect_match m [a; b] = Ok m' ∧
        atoms m' = atoms m ∧
        Forall2 protects (bonds m) (bonds m') ∧
        ∃ bnd', bonds m' !! i = Some bnd' ∧ bond_props bnd' !! "protected" = Some true.
Proof.
  intros Hi. unfold protect_match. simpl. rewrite Hi.
  eexists. split; [done|]. split; [done|]. simpl. split.
  - apply Forall2_alter_r; [apply Forall2_protects_refl|].
    intros x y _ _ Hxy. eapply protects_trans; [done|]. by right.
  - destruct (find_index_Some _ _ _ Hi) as (bnd & Hb & _).
    exists (SetBoolProp "protected" true bnd). split.
    + by rewrite list_lookup_alter_eq, Hb.
    + simpl. apply lookup_insert_eq.
Qed.

(** The second loop: it runs to its end on tuples that are bonded pairs, only
    raises flags, and leaves the flag of every bond it was given raised. *)
Lemma for_each_protect_match (ms : list (list nat)) (m : Mol) :
  Forall (bonded_pair m) ms →
  ∃ m', for_each protect_match ms m = Ok m' ∧
        atoms m' = atoms m ∧
        Forall2 protects (bonds m) (bonds m') ∧
        ∀ a b, [a; b] ∈ ms →
          ∃ i bnd', GetBondBetweenAtoms m' a b = Some i ∧
                    bonds m' !! i = Some bnd' ∧
                    bond_props bnd' !! "protected" = Some true.
Proof.
  revert m. induction ms as [|t ms IH]; intros m Hms.
  - exists m. split; [done|]. split; [done|]. split; [apply Forall2_protects_refl|].
    intros a b ?%elem_of_nil. done.
  - apply Forall_cons in Hms as [(a & b & i & -> & Hi) Hms].
    destruct (protect_match_spec m a b i Hi) as (m1 & Hm1 & Hat1 & Hp1 & bnd1 & Hb1 & Hf1).
    destruct (IH m1) as (m' & Hm' & Hat' & Hp' & Hall).
    { eapply Forall_impl; [done|]. intros t. by apply bonded_pair_protects. }
    exists m'. simpl. rewrite Hm1. simpl. split; [done|]. split; [congruence|].
    split; [by eapply Forall2_trans; [apply protects_trans|..]|].
    intros a' b' [[= -> ->]|Hin]%elem_of_cons; [|by apply Hall].
    destruct (Forall2_lookup_l _ _ _ _ _ Hp' Hb1) as (bnd' & Hb' & Hpr).
    exists i, bnd'. split; [|split; [done|by eapply protects_true]].
    rewrite (GetBondBetweenAtoms_protects m1 m') by done.
    by rewrite (GetBondBetweenAtoms_protects m m1).
Qed.

Lemma match_on_bond_Some (m : Mol) (q1 q2 : AtomQuery) (bnd : Bond) (t : list nat) :
  match_on_bond m q1 q2 bnd = Some t →
  bond_type bnd = DOUBLE ∧
  ((t = [begin_idx bnd; end_idx bnd] ∧
    atom_at_matches m q1 (begin_idx bnd) = true ∧ atom_at_matches m q2 (end_idx bnd) = true) ∨
   (t = [end_idx bnd; begin_idx bnd] ∧
    atom_at_matches m q1 (end_idx bnd) = true ∧ atom_at_matches m q2 (begin_idx bnd) = true)).
Proof.
  unfold match_on_bond. case_bool_decide; [|done].
  destruct (atom_at_matches m q1 (begin_idx bnd) && atom_at_matches m q2 (end_idx bnd)) eqn:H1.
  - apply andb_true_iff in H1. intros [= <-]. auto.
  - destruct (atom_at_matches m q1 (end_idx bnd) && atom_at_matches m q2 (begin_idx bnd)) eqn:H2;
      [|done].
    apply andb_true_iff in H2. intros [= <-]. auto.
Qed.

Lemma joins_ends (bnd : Bond) :
  joins (begin_idx bnd) (end_idx bnd) bnd = true ∧ joins (end_idx bnd) (begin_idx bnd) bnd = true.
Proof. unfold joins. rewrite !Nat.eqb_refl. simpl. by rewrite orb_true_r. Qed.

(** Every match of a two-atom pattern is a pair of atoms joined by a bond. *)
Lemma pattern_matches_bonded (m : Mol) (q1 q2 : AtomQuery) :
  Forall (bonded_pair m) (pattern_matches m (PatDouble q1 q2)).
Proof.
  apply Forall_forall. intros t (bnd & Hin & Ht)%list_elem_of_omap.
  apply match_on_bond_Some in Ht as [_ [(-> & _)|(-> & _)]].
  - destruct (find_index_exists (joins (begin_idx bnd) (end_idx bnd)) _ _ Hin) as [i Hi];
      [apply joins_ends|]. by exists (begin_idx bnd), (end_idx bnd), i.
  - destruct (find_index_exists (joins (end_idx bnd) (begin_idx bnd)) _ _ Hin) as [i Hi];
      [apply joins_ends|]. by exists (end_idx bnd), (begin_idx bnd), i.
Qed.

(** Matching reads no bond property. *)
Lemma pattern_matches_retagged (m m' : Mol) (pat : Pattern) :
  atoms m' = atoms m → Forall2 retagged (bonds m) (bonds m') →
  pattern_matches m' pat = pattern_matches m pat.
Proof.
  intros Hat Hb. destruct pat as [q|q1 q2]; simpl.
  - unfold atom_at_matches. by rewrite Hat.
  - symmetry. apply list_omap_ext. eapply Forall2_impl; [done|].
    intros b b' [v ->]. unfold match_on_bond, atom_at_matches. simpl. by rewrite Hat.
Qed.

Lemma init_retagged (l : list Bond) :
  Forall2 retagged l (SetBoolProp "protected" false <$> l).
Proof.
  apply Forall2_fmap_r, Forall_Forall2_diag, Forall_forall. intros b _. by exists false.
Qed.

(** What tagging does to a molecule: it always runs to its end; the atoms are
    as before; each bond is as before but for its [protected] flag, which is
    set on every bond; and the bond of every matched pair has the flag
    raised. *)
Lemma tag_bonds_to_preserve_on_spec (mol : Mol) :
  ∃ ms mol',
    GetSubstructMatches mol ring_db_pat = Ok ms ∧
    tag_bonds_to_preserve_on mol = Ok mol' ∧
    atoms mol' = atoms mol ∧
    Forall2 retagged (bonds mol) (bonds mol') ∧
    flags_set mol' ∧
    ∀ t, t ∈ ms →
      ∃ a b i bnd', t = [a; b] ∧
                    GetBondBetweenAtoms mol' a b = Some i ∧
                    bonds mol' !! i = Some bnd' ∧
                    bond_props bnd' !! "protected" = Some true.
Proof.
  unfold tag_bonds_to_preserve_on. rewrite ring_db_pat_parsed.
  set (pat := PatDouble _ _).
  set (m0 := with_bonds mol (SetBoolProp "protected" false <$> bonds mol)).
  assert (pattern_matches m0 pat = pattern_matches mol pat) as Hms
    by (apply pattern_matches_retagged; [done|apply init_retagged]).
  destruct (for_each_protect_match (pattern_matches m0 pat) m0)
    as (mol' & Hrun & Hat & Hp & Hall); [apply pattern_matches_bonded|].
  exists (pattern_matches mol pat), mol'. unfold GetSubstructMatches, rbind. rewrite Hrun.
  split; [done|]. split; [done|]. split; [done|].
  assert (Forall2 retagged (bonds mol) (bonds mol')) as Hre.
  { eapply Forall2_trans; [apply protects_retagged|apply init_retagged|exact Hp]. }
  split; [done|]. split.
  - apply Forall_forall. intros b' Hb'.
    apply list_elem_of_lookup in Hb' as [i Hi].
    destruct (Forall2_lookup_r _ _ _ _ _ Hre Hi) as (b & _ & v & ->).
    exists v. simpl. apply lookup_insert_eq.
  - intros t Ht. rewrite <- Hms in Ht.
    assert (Forall (bonded_pair m0) (pattern_matches m0 pat)) as Hbp
      by apply pattern_matches_bonded.
    rewrite Forall_forall in Hbp. destruct (Hbp t Ht) as (a & b & i & -> & _).
    destruct (Hall a b Ht) as (j & bnd' & ? & ? & ?). by exists a, b, j, bnd'.
Qed.

(** C2. Tagging always completes, and the bond of every atom pair the
    protection pattern matched is absent from the cut set the Fragmenter then
    computes from the tagged molecule. *)
Theorem protected_bonds_not_cut (mol : Mol) :
  ∃ ms mol' cuts,
    GetSubstructMatches mol ring_db_pat = Ok ms ∧
    tag_bonds_to_preserve_on mol = Ok mol' ∧
    frag_bond_list mol' = Ok cuts ∧
    ∀ t, t ∈ ms →
      ∃ bgn end_ i, t = [bgn; end_] ∧
                    GetBondBetweenAtoms mol' bgn end_ = Some i ∧
                    i ∉ cuts.
Proof.
  destruct (tag_bonds_to_preserve_on_spec mol) as (ms & mol' & Hms & Htag & _ & _ & Hfl & Hall).
  destruct (frag_bond_list_spec mol' Hfl) as (cuts & Hcuts & Hin).
  exists ms, mol', cuts. split; [done|]. split; [done|]. split; [done|].
  intros t Ht. destruct (Hall t Ht) as (a & b & i & bnd' & -> & Hi & Hb & Hflag).
  exists a, b, i. split; [done|]. split; [done|].
  intros (bnd & Hb2 & _ & Hp & _)%Hin.
  unfold GetBoolProp in Hp. simplify_eq. by rewrite Hflag in Hp.
Qed.

(** ** Stereo repair *)

(** No double bond with an end of degree 1 carries a stereo designation. *)
Definition stereo_repaired (mol : Mol) : Prop :=
  ∀ bnd, bnd ∈ bonds mol →
    GetBondType bnd = DOUBLE →
    GetDegree mol (begin_idx bnd) = 1 ∨ GetDegree mol (end_idx bnd) = 1 →
    stereo bnd = STEREONONE.

Lemma fix_bond_ends (mol : Mol) (bnd : Bond) :
  begin_idx (fix_bond mol bnd) = begin_idx bnd ∧
  end_idx (fix_bond mol bnd) = end_idx bnd ∧
  bond_type (fix_bond mol bnd) = bond_type bnd.
Proof.
  unfold fix_bond. case_bool_decide; [|done].
  by destruct (_ || _).
Qed.

Lemma degree_ext (l l' : list Bond) (i : nat) :
  Forall2 (λ b b', begin_idx b' = begin_idx b ∧ end_idx b' = end_idx b) l l' →
  length (filter (λ bnd, touches i bnd = true) l') =
  length (filter (λ bnd, touches i bnd = true) l).
Proof.
  induction 1 as [|b b' l l' [Hb He] _ IH]; [done|].
  assert (touches i b' = touches i b) as Ht by (unfold touches; by rewrite Hb, He).
  rewrite !filter_cons.
  destruct (decide (touches i b' = true)), (decide (touches i b = true));
    simpl; congruence.
Qed.

Lemma GetDegree_fix_bond_stereo (mol : Mol) (i : nat) :
  GetDegree (fix_bond_stereo_on mol) i = GetDegree mol i.
Proof.
  unfold GetDegree, fix_bond_stereo_on. simpl. apply degree_ext.
  apply Forall2_fmap_r, Forall_Forall2_diag, Forall_forall. intros b _.
  simpl. destruct (fix_bond_ends mol b) as (? & ? & _). done.
Qed.

Lemma fix_bond_stereo_on_repaired (mol : Mol) : stereo_repaired (fix_bond_stereo_on mol).
Proof.
  intros bnd' Hin Hty Hdeg. rewrite !GetDegree_fix_bond_stereo in Hdeg.
  simpl in Hin. apply list_elem_of_fmap in Hin as (bnd & -> & _).
  destruct (fix_bond_ends mol bnd) as (Hb & He & Ht).
  unfold GetBondType in Hty. rewrite Hb, He in Hdeg. rewrite Ht in Hty.
  unfold fix_bond, GetBondType. rewrite bool_decide_eq_true_2 by done.
  destruct Hdeg as [-> | ->]; simpl; [done|]. by rewrite orb_true_r.
Qed.

(** ** Running the methods on the store *)

Lemma tag_bonds_to_preserve_run (σ : Store) (l : loc) (mol : Mol) :
  σ !! l = Some mol →
  ∃ mol', tag_bonds_to_preserve_on mol = Ok mol' ∧
          tag_bonds_to_preserve (Some l) σ = (Ok (), <[l := mol']> σ).
Proof.
  intros Hl. destruct (tag_bonds_to_preserve_on_spec mol) as (_ & mol' & _ & Htag & _).
  exists mol'. split; [done|].
  unfold tag_bonds_to_preserve, in_place, bind, deref, lift, write. by rewrite Hl, Htag.
Qed.

(** [cleave_linker_bonds] writes to no object of the store it is given. *)
Lemma cleave_linker_bonds_extends (r : PyRef) (σ σ' : Store) (res : Result PyRef) :
  cleave_linker_bonds r σ = (res, σ') → ∃ ext, σ' = σ ++ ext.
Proof.
  unfold cleave_linker_bonds, bind, deref, lift, raise, ret.
  destruct r as [l|]; [|intros [= _ <-]; exists []; by rewrite app_nil_r].
  destruct (σ !! l) as [m|]; [|intros [= _ <-]; exists []; by rewrite app_nil_r].
  destruct (frag_bond_list m) as [cuts|e]; [|intros [= _ <-]; exists []; by rewrite app_nil_r].
  destruct (negb _); [|intros [= _ <-]; exists []; by rewrite app_nil_r].
  destruct (FragmentOnBonds m cuts) as [fm|e]; [|intros [= _ <-]; exists []; by rewrite app_nil_r].
  unfold in_place, alloc, bind, deref, lift, write.
  rewrite lookup_app_r, Nat.sub_diag by lia. simpl.
  destruct (SanitizeMol fm) as [fm'|e]; intros [= _ <-]; [|by eexists].
  rewrite insert_app_r_alt, Nat.sub_diag by lia. by eexists.
Qed.

Lemma mapM_alloc (ms : list Mol) (σ : Store) :
  mapM alloc ms σ = (Ok (Some <$> seq (length σ) (length ms)), σ ++ ms).
Proof.
  revert σ. induction ms as [|m ms IH]; intros σ; simpl.
  - unfold ret. by rewrite app_nil_r.
  - unfold bind at 1. unfold alloc at 1. unfold bind. rewrite IH. unfold ret.
    rewrite length_app, <- app_assoc. simpl. by rewrite Nat.add_1_r.
Qed.

(** One round of the loop of [cleanup_fragments] on the fragment at [f]: it
    stops before writing anything, or it rewrites the fragment and raises, or
    it rewrites the fragment and appends to the store a new object, repaired
    by [fix_bond_stereo], whose reference it appends to the list. *)
Lemma cleanup_fragment_run (kd : bool) (acc : list PyRef) (f : loc) (σ σ' : Store)
    (res : Result (list PyRef)) :
  f < length σ →
  cleanup_fragment kd acc (Some f) σ = (res, σ') →
  (σ' = σ ∧ (res = Ok acc ∨ ∃ e, res = Raise e)) ∨
  (∃ m1, σ' = <[f := m1]> σ ∧ ∃ e, res = Raise e) ∨
  (∃ m1 noh, σ' = <[f := m1]> σ ++ [fix_bond_stereo_on noh] ∧
             res = Ok (acc ++ [Some (length σ)])).
Proof.
  intros Hf. unfold cleanup_fragment, bind, deref, lift, ret.
  destruct (σ !! f) as [m|] eqn:Hm; [|intros [= <- <-]; left; eauto].
  destruct (HasSubstructMatch m ring_atom_pat) as [[]|e];
    [|intros [= <- <-]; left; eauto|intros [= <- <-]; left; eauto].
  unfold in_place, bind, deref, lift, write. rewrite Hm.
  rewrite list_lookup_insert_eq by done.
  destruct (RemoveAllHs _) as [noh|e]; [|intros [= <- <-]; right; left; eauto].
  unfold fix_bond_stereo, alloc, in_place, bind, deref, lift, write, ret.
  rewrite lookup_app_r, Nat.sub_diag by lia. simpl.
  rewrite insert_app_r_alt, Nat.sub_diag by lia. simpl.
  rewrite length_insert. intros [= <- <-]. right; right. eauto.
Qed.

(** A reference to an object of the store on which stereo is repaired. *)
Definition ring_system_at (σ : Store) (r : PyRef) : Prop :=
  ∃ l m, r = Some l ∧ σ !! l = Some m ∧ stereo_repaired m.

(** The loop of [cleanup_fragments], from a store that extends [σ0], over
    fragments allocated past [σ0]: the objects of [σ0] stay as they are, and
    the list it returns holds repaired objects. *)
Lemma cleanup_loop (kd : bool) (σ0 : Store) (rest : list PyRef) :
  ∀ (acc : list PyRef) (σ σ' : Store) (res : Result (list PyRef)),
    (∃ ext, σ = σ0 ++ ext) →
    Forall (λ r, ∃ f, r = Some f ∧ length σ0 ≤ f < length σ) rest →
    Forall (λ r, ring_system_at σ r ∧ r ∉ rest) acc →
    for_eachM (cleanup_fragment kd) rest acc σ = (res, σ') →
    (∃ ext, σ' = σ0 ++ ext) ∧
    ∀ out, res = Ok out → Forall (ring_system_at σ') out.
Proof.
  induction rest as [|r rest IH]; intros acc σ σ' res Hext Hrest Hacc; simpl.
  - intros [= <- <-]. split; [done|]. intros out [= <-].
    eapply Forall_impl; [done|]. by intros ? [? _].
  - apply Forall_cons in Hrest as [(f & -> & Hf0 & Hf) Hrest].
    destruct Hext as [ext ->].
    unfold bind. destruct (cleanup_fragment kd acc (Some f) (σ0 ++ ext)) as [res1 σ1] eqn:Hstep.
    assert (∀ m1, <[f := m1]> (σ0 ++ ext) = σ0 ++ <[f - length σ0 := m1]> ext) as Hins
      by (intros; by rewrite insert_app_r_alt by lia).
    apply cleanup_fragment_run in Hstep as
      [[-> Hres]|[(m1 & -> & e & ->)|(m1 & noh & -> & ->)]]; [| |..|done].
    + destruct Hres as [-> |[e ->]].
      * apply IH; [by eexists|done|].
        eapply Forall_impl; [done|]. intros r [? Hr]. split; [done|].
        by apply not_elem_of_cons in Hr as [_ ?].
      * intros [= <- <-]. split; [by eexists|]. by intros out [=].
    + intros [= <- <-]. rewrite Hins. split; [by eexists|]. by intros out [=].
    + apply IH.
      * rewrite Hins, <- app_assoc. by eexists.
      * eapply Forall_impl; [done|]. intros r (g & -> & ? & ?). exists g.
        rewrite length_app, length_insert. simpl. split; [done|lia].
      * apply Forall_app. split.
        -- eapply Forall_impl; [done|]. intros r [(l & m & -> & Hl & Hm) Hr].
           apply not_elem_of_cons in Hr as [Hne Hr]. split; [|done].
           exists l, m. split; [done|]. split; [|done].
           apply lookup_lt_Some in Hl as Hlt.
           rewrite lookup_app_l by (by rewrite length_insert).
           rewrite list_lookup_insert_ne by congruence. done.
        -- apply Forall_singleton. split.
           ++ exists (length (σ0 ++ ext)), (fix_bond_stereo_on noh). split; [done|].
              split; [|apply fix_bond_stereo_on_repaired].
              rewrite lookup_app_r by (by rewrite length_insert).
              by rewrite length_insert, Nat.sub_diag.
           ++ intros Hin. rewrite Forall_forall in Hrest.
              destruct (Hrest _ Hin) as (g & [= <-] & ? & ?). lia.
Qed.

Lemma cleanup_fragments_run (r : PyRef) (kd : bool) (σ σ' : Store) (res : Result (list PyRef)) :
  cleanup_fragments r kd σ = (res, σ') →
  (∃ ext, σ' = σ ++ ext) ∧
  ∀ out, res = Ok out → Forall (ring_system_at σ') out.
Proof.
  assert (∃ ext, σ = σ ++ ext) as Hrefl by (exists []; by rewrite app_nil_r).
  unfold cleanup_fragments, bind, deref, lift, raise.
  destruct r as [l|]; [|intros [= <- <-]; split; [done|]; by intros out [=]].
  destruct (σ !! l) as [m|]; [|intros [= <- <-]; split; [done|]; by intros out [=]].
  destruct (GetMolFrags m) as [frags|e]; [|intros [= <- <-]; split; [done|]; by intros out [=]].
  rewrite mapM_alloc. apply cleanup_loop.
  - by eexists.
  - apply Forall_fmap, Forall_forall. intros f Hf%elem_of_seq. simpl.
    exists f. rewrite length_app. split; [done|lia].
  - constructor.
Qed.

(** [item] is the text [MolToSmiles] gives for the object [r] refers to. *)
Definition smiles_of (σ : Store) (r : PyRef) (item : PyItem) : Prop :=
  ∃ l m s, r = Some l ∧ σ !! l = Some m ∧ MolToSmiles m = Ok s ∧ item = StrItem s.

Lemma mapM_to_smiles_run (refs : list PyRef) (σ σ' : Store) (res : Result (list PyItem)) :
  mapM to_smiles refs σ = (res, σ') →
  σ' = σ ∧ ∀ out, res = Ok out → Forall2 (smiles_of σ) refs out.
Proof.
  revert res σ'. induction refs as [|r refs IH]; intros res σ'; simpl.
  - intros [= <- <-]. split; [done|]. intros out [= <-]. constructor.
  - unfold bind at 1. unfold to_smiles at 1. unfold bind, deref, lift, raise, ret.
    destruct r as [l|]; [|intros [= <- <-]; split; [done|]; by intros out [=]].
    destruct (σ !! l) as [m|] eqn:Hm; [|intros [= <- <-]; split; [done|]; by intros out [=]].
    destruct (MolToSmiles m) as [s|e] eqn:Hs; [|intros [= <- <-]; split; [done|]; by intros out [=]].
    destruct (mapM to_smiles refs σ) as [res1 σ1] eqn:Hrest.
    destruct (IH _ _ eq_refl) as [-> Hout].
    destruct res1 as [ys|e]; intros [= <- <-]; (split; [done|]); [|by intros out [=]].
    intros out [= <-]. constructor; [|by apply Hout]. by exists l, m, s.
Qed.

(** The list [find_ring_systems] returns: the references of the repaired
    objects when [as_mols] is set, their texts otherwise. *)
Definition returned (σ : Store) (as_mols : bool) (refs : list PyRef) (out : list PyItem) : Prop :=
  if as_mols then out = MolItem <$> refs else Forall2 (smiles_of σ) refs out.

(** A run of [find_ring_systems] on the object at [l]: the object is tagged
    where it stands, everything else it creates is appended to the store, and
    what it returns is read off a list of repaired objects. *)
Lemma find_ring_systems_run (σ σ' : Store) (l : loc) (mol : Mol) (kd am : bool)
    (res : Result (list PyItem)) :
  σ !! l = Some mol →
  find_ring_systems (Some l) kd am σ = (res, σ') →
  ∃ mol' ext,
    tag_bonds_to_preserve_on mol = Ok mol' ∧
    σ' = <[l := mol']> σ ++ ext ∧
    ∀ out, res = Ok out →
      ∃ refs, Forall (ring_system_at σ') refs ∧ returned σ' am refs out.
Proof.
  intros Hl. destruct (tag_bonds_to_preserve_run σ l mol Hl) as (mol' & Htag & Hrun).
  unfold find_ring_systems. unfold bind at 1. rewrite Hrun.
  unfold bind at 1.
  destruct (cleave_linker_bonds (Some l) (<[l:=mol']> σ)) as [res1 σ1] eqn:Hcl.
  apply cleave_linker_bonds_extends in Hcl as [ext1 ->].
  destruct res1 as [frag_mol|e];
    [|intros [= <- <-]; exists mol', ext1; split; [done|]; split; [done|]; by intros out [=]].
  unfold bind at 1.
  destruct (cleanup_fragments frag_mol kd _) as [res2 σ2] eqn:Hcf.
  apply cleanup_fragments_run in Hcf as [[ext2 ->] Hrefs].
  rewrite <- app_assoc.
  destruct res2 as [refs|e];
    [|intros [= <- <-]; exists mol', (ext1 ++ ext2); split; [done|]; split; [done|];
      by intros out [=]].
  specialize (Hrefs refs eq_refl). rewrite <- app_assoc in Hrefs.
  destruct am; simpl.
  - intros [= <- <-]. exists mol', (ext1 ++ ext2). split; [done|]. split; [done|].
    intros out [= <-]. by exists refs.
  - intros Hm. apply mapM_to_smiles_run in Hm as [-> Hout].
    exists mol', (ext1 ++ ext2). split; [done|]. split; [done|].
    intros out ->. exists refs. split; [done|]. by apply Hout.
Qed.

Lemma find_ring_systems_returns (σ σ' : Store) (r : PyRef) (kd am : bool) (out : list PyItem) :
  find_ring_systems r kd am σ = (Ok out, σ') →
  ∃ refs, Forall (ring_system_at σ') refs ∧ returned σ' am refs out.
Proof.
  destruct r as [l|]; [|by intros [=]].
  destruct (σ !! l) as [mol|] eqn:Hl.
  - intros Hrun. destruct (find_ring_systems_run _ _ _ _ _ _ _ Hl Hrun) as (_ & _ & _ & _ & H).
    by apply H.
  - unfold find_ring_systems, tag_bonds_to_preserve, in_place, bind, deref. by rewrite Hl.
Qed.

(** C7. Every ring system [find_ring_systems] returns (the object itself with
    [as_mols], the object its text was written from otherwise) is an object
    of the final store in which every double bond with an end of degree 1 has
    its stereo designation cleared to [STEREONONE]. *)
Theorem returned_ring_systems_stereo_repaired (σ σ' : Store) (mol : PyRef)
    (keep_dummy as_mols : bool) (out : list PyItem) :
  find_ring_systems mol keep_dummy as_mols σ = (Ok out, σ') →
  ∃ refs,
    (if as_mols then out = MolItem <$> refs else Forall2 (smiles_of σ') refs out) ∧
    ∀ r, r ∈ refs →
      ∃ l rs, r = Some l ∧ σ' !! l = Some rs ∧
        ∀ bnd, bnd ∈ bonds rs →
          GetBondType bnd = DOUBLE →
          GetDegree rs (begin_idx bnd) = 1 ∨ GetDegree rs (end_idx bnd) = 1 →
          stereo bnd = STEREONONE.
Proof.
  intros (refs & Hrefs & Hout)%find_ring_systems_returns.
  exists refs. split; [done|]. intros r Hr.
  rewrite Forall_forall in Hrefs. destruct (Hrefs r Hr) as (l & rs & -> & Hl & Hrs).
  by exists l, rs.
Qed.

(** Tagging starts by overwriting every flag, so it does not see the flags
    the molecule came with. *)
Lemma tag_bonds_to_preserve_on_retagged (mol mol0 : Mol) :
  atoms mol0 = atoms mol → Forall2 retagged (bonds mol) (bonds mol0) →
  tag_bonds_to_preserve_on mol0 = tag_bonds_to_preserve_on mol.
Proof.
  intros Hat Hb. unfold tag_bonds_to_preserve_on.
  assert (SetBoolProp "protected" false <$> bonds mol0 =
          SetBoolProp "protected" false <$> bonds mol) as Hinit.
  { induction Hb as [|b b0 l l0 [v ->] _ IH]; [done|].
    rewrite !fmap_cons, IH, SetBoolProp_twice. done. }
  unfold with_bonds. by rewrite Hinit, Hat.
Qed.

(** C10, as the code has it. [find_ring_systems] changes one thing in the
    store it is given: the [protected] flag of the bonds of its input, which
    it overwrites; the atoms of the input, everything else of its bonds, and
    every other object of the store are left as they were, whether the call
    returns or raises. A call does not read the flags the input came with:
    from inputs that differ in those flags only, the result and the final
    store are the same. *)
Theorem find_ring_systems_frame (σ : Store) (l : loc) (mol : Mol) (keep_dummy as_mols : bool) :
  σ !! l = Some mol →
  (∃ mol', (find_ring_systems (Some l) keep_dummy as_mols σ).2 !! l = Some mol' ∧
           atoms mol' = atoms mol ∧
           Forall2 (λ bnd bnd', ∃ v, bnd' = SetBoolProp "protected" v bnd)
                   (bonds mol) (bonds mol')) ∧
  (∀ l', l' ≠ l → l' < length σ →
         (find_ring_systems (Some l) keep_dummy as_mols σ).2 !! l' = σ !! l') ∧
  (∀ mol0, atoms mol0 = atoms mol →
           Forall2 (λ bnd bnd0, ∃ v, bnd0 = SetBoolProp "protected" v bnd)
                   (bonds mol) (bonds mol0) →
           find_ring_systems (Some l) keep_dummy as_mols (<[l := mol0]> σ) =
           find_ring_systems (Some l) keep_dummy as_mols σ).
Proof.
  intros Hl. pose proof (lookup_lt_Some _ _ _ Hl) as Hlt.
  destruct (find_ring_systems (Some l) keep_dummy as_mols σ) as [res σ'] eqn:Hrun.
  destruct (find_ring_systems_run _ _ _ _ _ _ _ Hl Hrun) as (mol' & ext & Htag & -> & _).
  destruct (tag_bonds_to_preserve_on_spec mol) as (_ & mol'' & _ & Htag' & Hat & Hre & _).
  rewrite Htag in Htag'. injection Htag' as <-. simpl. split; [|split].
  - exists mol'. rewrite lookup_app_l by (by rewrite length_insert).
    by rewrite list_lookup_insert_eq.
  - intros l' Hne Hl'. rewrite lookup_app_l by (by rewrite length_insert).
    by rewrite list_lookup_insert_ne.
  - intros mol0 Hat0 Hb0.
    assert (∀ m, tag_bonds_to_preserve_on m = Ok mol' →
                 find_ring_systems (Some l) keep_dummy as_mols (<[l := m]> σ) =
                 (do frag_mol <- cleave_linker_bonds (Some l);
                  do output_list <- cleanup_fragments frag_mol keep_dummy;
                  if negb as_mols then mapM to_smiles output_list
                  else ret (MolItem <$> output_list)) (<[l := mol']> σ)) as Hstep.
    { intros m Hm. unfold find_ring_systems. unfold bind at 1.
      unfold tag_bonds_to_preserve, in_place, bind, deref, lift, write.
      rewrite list_lookup_insert_eq by done. rewrite Hm.
      by rewrite list_insert_insert_eq. }
    transitivity (find_ring_systems (Some l) keep_dummy as_mols (<[l := mol]> σ));
      [|by rewrite list_insert_id].
    rewrite (Hstep mol Htag), (Hstep mol0); [done|].
    by rewrite (tag_bonds_to_preserve_on_retagged mol mol0).
Qed.

(** ** Placeholder atoms *)

(** C8, as the code has it. The loop over the atoms of a retained fragment
    leaves the bonds and every atom that is not a placeholder as they are. A
    placeholder atom (atomic number 0) gets its isotope tag cleared to 0 in
    both branches; with [keep_dummy] it keeps its atomic number and gets the
    label [R], without [keep_dummy] its atomic number becomes 1 and its
    properties stay as they are. *)
Theorem cleanup_atoms_placeholders (keep_dummy : bool) (frag : Mol) (i : nat) (atm : Atom) :
  atoms frag !! i = Some atm →
  bonds (cleanup_atoms_on keep_dummy frag) = bonds frag ∧
  ∃ atm',
    atoms (cleanup_atoms_on keep_dummy frag) !! i = Some atm' ∧
    aromatic atm' = aromatic atm ∧ num_rings atm' = num_rings atm ∧
    (GetAtomicNum atm ≠ 0 → atm' = atm) ∧
    (GetAtomicNum atm = 0 →
     isotope atm' = 0 ∧
     if keep_dummy
     then atomic_num atm' = 0 ∧ atom_props atm' = <["atomLabel" := "R"]> (atom_props atm)
     else atomic_num atm' = 1 ∧ atom_props atm' = atom_props atm).
Proof.
  intros Hi. split; [done|].
  exists (cleanup_atom keep_dummy atm). split.
  - simpl. by rewrite list_lookup_fmap, Hi.
  - unfold cleanup_atom, GetAtomicNum. destruct (atomic_num atm =? 0) eqn:Hz.
    + apply Nat.eqb_eq in Hz. destruct keep_dummy; simpl; (repeat split; try done);
        intros ?; done.
    + apply Nat.eqb_neq in Hz. repeat split; try done.
Qed.

(** ** The frequency-table builder *)

Lemma find_ring_systems_None (kd am : bool) (σ : Store) :
  find_ring_systems None kd am σ = (Raise AttributeError, σ).
Proof. reflexivity. Qed.

(** A row whose text does not parse: [MolFromSmiles] gives [None], and the
    first method called on it raises. *)
Lemma ring_dictionary_row_unparsable (acc : list PyItem) (smi : string) (σ : Store) :
  MolFromSmiles smi = None →
  ring_dictionary_row acc smi σ = (Raise AttributeError, σ).
Proof.
  intros Hp. unfold ring_dictionary_row, parse_smiles. rewrite Hp. reflexivity.
Qed.

Lemma for_eachM_raises {A S} (body : S → A → M S) (xs : list A) (x : A) :
  x ∈ xs →
  (∀ acc σ, ∃ e, (body acc x σ).1 = Raise e) →
  ∀ acc σ, ∃ e, (for_eachM body xs acc σ).1 = Raise e.
Proof.
  intros Hin Hx. induction xs as [|y xs IH]; [by apply elem_of_nil in Hin|].
  intros acc σ. simpl. unfold bind.
  destruct (body acc y σ) as [[acc'|e] σ1] eqn:Hy; [|by exists e].
  apply elem_of_cons in Hin as [<-|Hin].
  - destruct (Hx acc σ) as [e He]. by rewrite Hy in He.
  - by apply IH.
Qed.

(** C4 fails on the code. One row whose structure text does not parse makes
    [create_ring_dictionary] raise: no table is built for the corpus. *)
Theorem create_ring_dictionary_aborts (df : list (string * string)) (smi : string) (σ : Store) :
  smi ∈ df.*1 →
  MolFromSmiles smi = None →
  ∃ e, (create_ring_dictionary df σ).1 = Raise e.
Proof.
  intros Hin Hp. unfold create_ring_dictionary, bind.
  destruct (for_eachM_raises ring_dictionary_row (df.*1) smi Hin) with (acc := @nil PyItem) (σ := σ)
    as [e He].
  - intros acc σ1. exists AttributeError. by rewrite ring_dictionary_row_unparsable.
  - destruct (for_eachM _ _ _ _) as [[l|e'] σ1]; [done|]. by exists e'.
Qed.

(** ** Lookup *)

Lemma or_zero_default (v : option Z) : or_zero v = default 0%Z v.
Proof. destruct v as [c|]; simpl; [|done]. by destruct (Z.eqb_spec c 0). Qed.

Lemma smiles_items (σ : Store) (refs : list PyRef) (out : list PyItem) :
  Forall2 (smiles_of σ) refs out → ∃ strs, out = StrItem <$> strs.
Proof.
  induction 1 as [|r item refs out (_ & _ & s & _ & _ & _ & ->) _ [strs ->]].
  - by exists [].
  - by exists (s :: strs).
Qed.

(** C5. A text that does not parse gives the empty list, without raising.
    For a text that parses, the ring systems [find_ring_systems] finds on the
    new molecule are strings, and the answer pairs each with its count in the
    table, 0 for a string the table does not hold. *)
Theorem process_smiles_spec (self : RingSystemLookup) (smi : string) (σ : Store) :
  (MolFromSmiles smi = None → process_smiles self smi σ = (Ok [], σ)) ∧
  (∀ mol found σ',
     MolFromSmiles smi = Some mol →
     find_ring_systems (Some (length σ)) false false (σ ++ [mol]) = (Ok found, σ') →
     ∃ strs,
       found = StrItem <$> strs ∧
       process_smiles self smi σ =
         (Ok ((λ s, (StrItem s, default 0%Z (ring_dict self !! s))) <$> strs), σ')) ∧
  (∀ s, ring_dict self !! s = None → or_zero (dict_get (ring_dict self) (StrItem s)) = 0%Z).
Proof.
  unfold process_smiles, parse_smiles, bind. split; [|split].
  - intros ->. reflexivity.
  - intros mol found σ' -> Hrun. unfold alloc, process_mol, bind. rewrite Hrun.
    destruct (find_ring_systems_returns _ _ _ _ _ _ Hrun) as (refs & _ & Hout).
    destruct (smiles_items _ _ _ Hout) as [strs ->]. exists strs. split; [done|].
    unfold ret. rewrite <- list_fmap_compose. do 2 f_equal.
    apply list_fmap_ext. intros _ s _. simpl. by rewrite or_zero_default.
  - intros s Hs. simpl. by rewrite Hs.
Qed.

(** The counts of an answer are read from the table. *)
Lemma process_smiles_counts (self : RingSystemLookup) (smi : string) (σ σ' : Store)
    (freq_list : list (PyItem * Z)) :
  process_smiles self smi σ = (Ok freq_list, σ') →
  Forall (λ p, p.2 = or_zero (dict_get (ring_dict self) p.1)) freq_list.
Proof.
  unfold process_smiles, parse_smiles, bind.
  destruct (MolFromSmiles smi) as [mol|].
  - unfold alloc, process_mol, bind.
    destruct (find_ring_systems _ _ _ _) as [[found|e] σ1]; [|done].
    intros [= <- <-]. apply Forall_fmap, Forall_forall. by intros x _.
  - intros [= <- <-]. constructor.
Qed.

Lemma foldl_min_spec (xs : list Z) (x : Z) :
  foldl Z.min x xs ∈ x :: xs ∧ ∀ y, y ∈ x :: xs → (foldl Z.min x xs ≤ y)%Z.
Proof.
  revert x. induction xs as [|z xs IH]; intros x; simpl.
  - split; [apply list_elem_of_singleton; done|]. intros y ->%list_elem_of_singleton. lia.
  - destruct (IH (x `min` z)%Z) as [Hin Hle]. split.
    + apply elem_of_cons in Hin as [Heq|Hin].
      * rewrite Heq. destruct (Z.min_spec x z) as [[_ ->]|[_ ->]].
        -- by left.
        -- right; by left.
      * right; by right.
    + intros y Hy. assert (foldl Z.min (x `min` z)%Z xs ≤ x `min` z)%Z as H0
        by (apply Hle; by left).
      apply elem_of_cons in Hy as [->|[->|Hy]%elem_of_cons]; [lia|lia|].
      apply Hle. by right.
Qed.

(** C6. The value computed for a structure is [-1] when the answer of the
    lookup is empty and the least count of the answer otherwise; for an answer
    of one ring system that the table does not hold it is 0. The table's
    counts are occurrence counts: none being negative, the least count is not
    negative either, so the value is [-1] exactly when the answer is empty. *)
Theorem min_freq_spec (self : RingSystemLookup) (smi : string) (σ σ' : Store)
    (freq_list : list (PyItem * Z)) :
  process_smiles self smi σ = (Ok freq_list, σ') →
  ∃ res,
    min_freq self smi σ = (Ok res, σ') ∧
    (freq_list = [] → res = (-1)%Z) ∧
    (freq_list ≠ [] → res ∈ freq_list.*2 ∧ ∀ c, c ∈ freq_list.*2 → (res ≤ c)%Z) ∧
    (∀ x c, freq_list = [(x, c)] → dict_get (ring_dict self) x = None → res = 0%Z) ∧
    (map_Forall (λ _ c, (0 ≤ c)%Z) (ring_dict self) →
     (freq_list ≠ [] → (0 ≤ res)%Z) ∧ (res = (-1)%Z ↔ freq_list = [])).
Proof.
  intros Hrun. pose proof (process_smiles_counts _ _ _ _ _ Hrun) as Hcounts.
  assert (map_Forall (λ _ c, (0 ≤ c)%Z) (ring_dict self) →
          Forall (λ c, 0 ≤ c)%Z freq_list.*2) as Hnn.
  { intros Hpos. apply Forall_fmap. eapply Forall_impl; [done|]. intros [x c] Hc. simpl in *.
    rewrite Hc, or_zero_default. destruct x as [r|s]; simpl; [done|].
    destruct (ring_dict self !! s) as [c'|] eqn:Hs; simpl; [|done].
    by apply (Hpos s c'). }
  unfold min_freq, bind. rewrite Hrun.
  destruct freq_list as [|[x c] fl].
  - exists (-1)%Z. split; [done|]. split; [done|]. split; [done|].
    split; [by intros ? ? [=]|]. intros _. done.
  - exists (foldl Z.min c fl.*2). split; [reflexivity|].
    destruct (foldl_min_spec fl.*2 c) as [Hin Hle].
    split; [done|]. split; [done|]. split.
    + intros x' c' [= <- <- ->] Hx. simpl.
      apply Forall_cons in Hcounts as [Hc _]. simpl in Hc. rewrite Hc, Hx. done.
    + intros Hpos. specialize (Hnn Hpos). rewrite Forall_forall in Hnn.
      pose proof (Hnn _ Hin) as H0. split; [done|]. split; [lia|done].
Qed.

End Properties.

(** ** What the protection pattern matches *)

(** The atoms the first atom of [ring_db_pat] accepts: atomic number 6 or 18,
    in a ring. *)
Definition ring_end (atm : Atom) : Prop :=
  (atomic_num atm = 6 ∨ atomic_num atm = 18) ∧ 0 < num_rings atm.

(** The atoms its second atom accepts: aliphatic O, S, C or N in no ring. *)
Definition exo_end (atm : Atom) : Prop :=
  (atomic_num atm = 8 ∨ atomic_num atm = 16 ∨ atomic_num atm = 6 ∨ atomic_num atm = 7) ∧
  aromatic atm = false ∧ num_rings atm = 0.

Definition db_q1 : AtomQuery := [[AtomicNumber 6; InRing]; [AtomicNumber 18; InRing]].
Definition db_q2 : AtomQuery :=
  [[Aliphatic 8; RingCount 0]; [Aliphatic 16; RingCount 0];
   [Aliphatic 6; RingCount 0]; [Aliphatic 7; RingCount 0]].

Lemma db_q1_matches (atm : Atom) : atom_matches db_q1 atm = true ↔ ring_end atm.
Proof.
  unfold atom_matches, db_q1, ring_end. simpl.
  rewrite !orb_true_iff, !andb_true_iff, !Nat.eqb_eq, Nat.ltb_lt. intuition discriminate.
Qed.

Lemma db_q2_matches (atm : Atom) : atom_matches db_q2 atm = true ↔ exo_end atm.
Proof.
  unfold atom_matches, db_q2, exo_end. simpl.
  rewrite !orb_true_iff, !andb_true_iff, !negb_true_iff, !Nat.eqb_eq.
  intuition (try discriminate; auto).
Qed.

Lemma atom_at_matches_Some (mol : Mol) (q : AtomQuery) (i : nat) :
  atom_at_matches mol q i = true ↔ ∃ atm, atoms mol !! i = Some atm ∧ atom_matches q atm = true.
Proof.
  unfold atom_at_matches. destruct (atoms mol !! i) as [atm|].
  - split; [eauto|]. by intros (? & [= <-] & ?).
  - split; [done|]. by intros (? & [=] & _).
Qed.

(** The tuples [GetSubstructMatches] returns for [ring_db_pat]: the pairs
    [a; b] of atoms at the two ends of a double bond, [a] a ring atom of
    atomic number 6 or 18 and [b] an aliphatic O, S, C or N outside every
    ring. *)
Lemma ring_db_pat_matches (mol : Mol) (t : list nat) :
  t ∈ pattern_matches mol (PatDouble db_q1 db_q2) ↔
  ∃ bnd a b atm_a atm_b,
    t = [a; b] ∧ bnd ∈ bonds mol ∧ bond_type bnd = DOUBLE ∧
    ((a = begin_idx bnd ∧ b = end_idx bnd) ∨ (a = end_idx bnd ∧ b = begin_idx bnd)) ∧
    atoms mol !! a = Some atm_a ∧ atoms mol !! b = Some atm_b ∧
    ring_end atm_a ∧ exo_end atm_b.
Proof.
  simpl. rewrite list_elem_of_omap. split.
  - intros (bnd & Hin & Hm). apply match_on_bond_Some in Hm as [Hd Hm].
    destruct Hm as [(-> & (x & Hx & Hqx)%atom_at_matches_Some & (y & Hy & Hqy)%atom_at_matches_Some)
                   |(-> & (x & Hx & Hqx)%atom_at_matches_Some & (y & Hy & Hqy)%atom_at_matches_Some)].
    + exists bnd, (begin_idx bnd), (end_idx bnd), x, y.
      apply db_q1_matches in Hqx. apply db_q2_matches in Hqy. naive_solver.
    + exists bnd, (end_idx bnd), (begin_idx bnd), x, y.
      apply db_q1_matches in Hqx. apply db_q2_matches in Hqy. naive_solver.
  - intros (bnd & a & b & x & y & -> & Hin & Hd & Hab & Hx & Hy & Hqx & Hqy).
    exists bnd. split; [done|].
    assert (atom_at_matches mol db_q1 a = true) as Ha
      by (apply atom_at_matches_Some; exists x; by rewrite db_q1_matches).
    assert (atom_at_matches mol db_q2 b = true) as Hb
      by (apply atom_at_matches_Some; exists y; by rewrite db_q2_matches).
    assert (atom_at_matches mol db_q1 b = false) as Hnb.
    { apply not_true_is_false. intros (y' & Hy' & Hq)%atom_at_matches_Some.
      apply db_q1_matches in Hq as [_ Hr]. destruct Hqy as (_ & _ & H0).
      simplify_eq. lia. }
    unfold match_on_bond. rewrite bool_decide_eq_true_2 by done.
    destruct Hab as [[-> ->]|[-> ->]].
    + by rewrite Ha, Hb.
    + by rewrite Hnb, Ha, Hb.
Qed.

(** The pairs the pattern is described by: a ring carbon, or a ring atom that
    is neither carbon nor hydrogen, double-bonded to an oxygen, sulfur,
    carbon or nitrogen outside every ring. *)
Definition exocyclic_ring_double_bond (mol : Mol) (a b : nat) : Prop :=
  ∃ bnd atm_a atm_b,
    bnd ∈ bonds mol ∧ joins a b bnd = true ∧ bond_type bnd = DOUBLE ∧
    atoms mol !! a = Some atm_a ∧ atoms mol !! b = Some atm_b ∧
    0 < num_rings atm_a ∧ atomic_num atm_a ≠ 1 ∧
    num_rings atm_b = 0 ∧
    (atomic_num atm_b = 8 ∨ atomic_num atm_b = 16 ∨ atomic_num atm_b = 6 ∨ atomic_num atm_b = 7).

(** * The module run on molecules *)

Module Examples.
Import Toolkit.

Definition tagged (mol : Mol) : Mol :=
  with_bonds mol (SetBoolProp "protected" false <$> bonds mol).

(** The ring of ethylbenzene after the cut of bond 6, with its placeholder. *)
Definition phenyl_fragment : Mol :=
  mkMol (replicate 6 (atom 6 true 1) ++ [dummy 6])
        (ring6 AROMATIC ++ [bond 0 6 SINGLE false]).

Example cyclohexanone_carbonyl_matched :
  GetSubstructMatches cyclohexanone ring_db_pat = Ok [[0; 6]].
Proof. reflexivity. Qed.

Example ethylbenzene_cuts :
  rbind (tag_bonds_to_preserve_on ethylbenzene) frag_bond_list = Ok [6; 7].
Proof. reflexivity. Qed.

Example ethylbenzene_ring_system :
  (find_ring_systems (Some 0) false false [ethylbenzene]).1 =
  Ok [StrItem "cccccc 0:1 1:2 2:3 3:4 4:5 5:0"].
Proof. vm_compute. reflexivity. Qed.

Example ethylbenzene_ring_system_with_dummy :
  (find_ring_systems (Some 0) true false [ethylbenzene]).1 =
  Ok [StrItem "cccccc* 0:1 1:2 2:3 3:4 4:5 5:0 0-6"].
Proof. vm_compute. reflexivity. Qed.

Example ethanol_no_ring_system :
  (find_ring_systems (Some 0) false false [ethanol]).1 = Ok [].
Proof. vm_compute. reflexivity. Qed.

Example two_row_table :
  match (create_ring_dictionary [("c1ccccc1", "a"); ("CCc1ccccc1", "b")] []).1 with
  | Ok table => map_to_list table = [(StrItem "cccccc 0:1 1:2 2:3 3:4 4:5 5:0", 2)]
  | Raise _ => False
  end.
Proof. vm_compute. reflexivity. Qed.

(** The lookup guards the parse; the builder does not. *)
Example lookup_skips_unparsable :
  (process_smiles (mkLookup ∅) "not a structure" []).1 = Ok [].
Proof. reflexivity. Qed.

(** C1, on benzene: no bond to cut, and the reference comes back as given. *)
Lemma cleave_linker_bonds_cut_set_witness :
  cleave_linker_bonds (Some 0) [tagged benzene] = (Ok (Some 0), [tagged benzene]).
Proof.
  destruct (cleave_linker_bonds_cut_set [tagged benzene] 0 (tagged benzene))
    as (cuts & Hcuts & _ & Hempty & _).
  - reflexivity.
  - unfold flags_set, flagged. simpl. repeat constructor; by eexists.
  - apply Hempty. vm_compute in Hcuts. congruence.
Defined.

(** C2, on cyclohexanone: the carbonyl bond is matched and is not cut. *)
Lemma protected_bonds_not_cut_witness :
  ∃ mol' cuts i,
    tag_bonds_to_preserve_on cyclohexanone = Ok mol' ∧
    frag_bond_list mol' = Ok cuts ∧
    GetBondBetweenAtoms mol' 0 6 = Some i ∧ i ∉ cuts.
Proof.
  destruct (protected_bonds_not_cut cyclohexanone) as (ms & mol' & cuts & Hms & Htag & Hcuts & Hall).
  rewrite cyclohexanone_carbonyl_matched in Hms. injection Hms as <-.
  destruct (Hall [0; 6]) as (bgn & end_ & i & Heq & Hi & Hni); [by left|].
  injection Heq as <- <-. by exists mol', cuts, i.
Defined.

(** C3 fails on the code. In thiolane 1-oxide the ring sulfur is
    double-bonded to an oxygen outside the ring; the pattern, whose first
    atom asks for atomic number 6 or 18, does not match the pair, and tagging
    leaves the flag of the bond false. *)
Theorem ring_sulfur_double_bond_not_protected :
  exocyclic_ring_double_bond thiolane_oxide 0 5 ∧
  GetSubstructMatches thiolane_oxide ring_db_pat = Ok [] ∧
  ∃ mol' bnd,
    tag_bonds_to_preserve_on thiolane_oxide = Ok mol' ∧
    GetBondBetweenAtoms mol' 0 5 = Some 5 ∧
    bonds mol' !! 5 = Some bnd ∧
    GetBoolProp "protected" bnd = Ok false.
Proof.
  split; [|split].
  - exists (bond 0 5 DOUBLE false), (atom 16 false 1), (atom 8 false 0).
    repeat split; try done; try (simpl; lia); auto.
    unfold thiolane_oxide. simpl. do 5 right. left.
  - reflexivity.
  - eexists _, _. repeat split; reflexivity.
Qed.

(** C4, on a corpus of two rows, the first of which does not parse. *)
Lemma create_ring_dictionary_aborts_witness :
  ∃ e, (create_ring_dictionary [("not a structure", "a"); ("c1ccccc1", "b")] []).1 = Raise e.
Proof.
  apply (create_ring_dictionary_aborts _ "not a structure").
  - by left.
  - reflexivity.
Defined.

(** C5, on ethylbenzene and a table that holds its ring system. *)
Lemma process_smiles_spec_witness :
  (process_smiles (mkLookup {["cccccc 0:1 1:2 2:3 3:4 4:5 5:0" := 7%Z]}) "CCc1ccccc1" []).1 =
  Ok [(StrItem "cccccc 0:1 1:2 2:3 3:4 4:5 5:0", 7%Z)].
Proof.
  assert (find_ring_systems (Some 0) false false [ethylbenzene] =
          (Ok [StrItem "cccccc 0:1 1:2 2:3 3:4 4:5 5:0"],
           (find_ring_systems (Some 0) false false [ethylbenzene]).2))
    as Hrun by (vm_compute; reflexivity).
  destruct (process_smiles_spec (mkLookup {["cccccc 0:1 1:2 2:3 3:4 4:5 5:0" := 7%Z]})
              "CCc1ccccc1" []) as (_ & Hsome & _).
  destruct (Hsome ethylbenzene _ _ eq_refl Hrun) as (strs & Hstrs & ->).
  clear Hrun Hsome.
  destruct strs as [|s [|? ?]]; [discriminate Hstrs| |discriminate Hstrs].
  injection Hstrs as <-. vm_compute. reflexivity.
Defined.

(** C6, on ethylbenzene and an empty table: the only ring system is absent
    from the table, and the value is 0, not the [-1] of an empty answer. *)
Lemma min_freq_spec_witness :
  (min_freq (mkLookup ∅) "CCc1ccccc1" []).1 = Ok 0%Z ∧
  (min_freq (mkLookup ∅) "CCO" []).1 = Ok (-1)%Z.
Proof.
  assert (process_smiles (mkLookup ∅) "CCc1ccccc1" [] =
          (Ok [(StrItem "cccccc 0:1 1:2 2:3 3:4 4:5 5:0", 0%Z)],
           (process_smiles (mkLookup ∅) "CCc1ccccc1" []).2))
    as Hring by (vm_compute; reflexivity).
  assert (process_smiles (mkLookup ∅) "CCO" [] =
          (Ok [], (process_smiles (mkLookup ∅) "CCO" []).2))
    as Hnone by (vm_compute; reflexivity).
  destruct (min_freq_spec _ _ _ _ _ Hring) as (r & -> & _ & _ & Hone & _).
  destruct (min_freq_spec _ _ _ _ _ Hnone) as (r' & -> & Hempty & _).
  simpl. split; f_equal.
  - by eapply Hone.
  - by apply Hempty.
Defined.

(** Ethylidenecyclohexane, [CC=C1CCCCC1]: a ring of six carbons, a carbon
    outside the ring (atom 6) double-bonded to ring atom 0, and a methyl
    carbon (atom 7) on it. The double bond (bond 6) carries the designation
    [STEREOE]. *)
Definition ethylidenecyclohexane : Mol :=
  mkMol (replicate 6 (atom 6 false 1) ++ [atom 6 false 0; atom 6 false 0])
        (ring6 SINGLE ++ [mkBond 0 6 DOUBLE false STEREOE ∅; bond 6 7 SINGLE false]).

(** The only bond cut is the single bond to the methyl carbon. *)
Example ethylidenecyclohexane_cuts :
  rbind (tag_bonds_to_preserve_on ethylidenecyclohexane) frag_bond_list = Ok [7].
Proof. reflexivity. Qed.

(** With the placeholder kept, atom 6 keeps two neighbours and the repair
    leaves the designation of the double bond as it was. *)
Example ethylidenecyclohexane_with_dummy :
  ∃ rs,
    (find_ring_systems (Some 0) true true [ethylidenecyclohexane]).1 = Ok [MolItem (Some 4)] ∧
    (find_ring_systems (Some 0) true true [ethylidenecyclohexane]).2 !! 4 = Some rs ∧
    GetDegree rs 0 = 3 ∧ GetDegree rs 6 = 2 ∧
    stereo <$> bonds rs !! 6 = Some STEREOE.
Proof.
  eexists. split; [vm_compute; reflexivity|]. split; [vm_compute; reflexivity|].
  split; [vm_compute; reflexivity|]. split; vm_compute; reflexivity.
Qed.

(** Without the placeholder: the fragment the cut gives (object 2 of the
    final store), whose placeholder the loop over the atoms has turned into a
    hydrogen, still has the double bond as [STEREOE]. *)
Example ethylidenecyclohexane_fragment :
  ∃ f,
    (find_ring_systems (Some 0) false true [ethylidenecyclohexane]).2 !! 2 = Some f ∧
    GetAtomicNum <$> atoms f !! 7 = Some 1 ∧ GetDegree f 6 = 2 ∧
    stereo <$> bonds f !! 6 = Some STEREOE.
Proof.
  eexists. split; [vm_compute; reflexivity|].
  split; [vm_compute; reflexivity|]. split; vm_compute; reflexivity.
Qed.

(** C7, on ethylidenecyclohexane without the placeholder. Once the hydrogen
    that stands for the methyl group is removed, atom 6 has the ring carbon as
    its only neighbour: in the ring system returned (object 4) the bond from
    ring atom 0 to atom 6 is a double bond with an end of degree 1, and its
    designation, [STEREOE] in the input, is [STEREONONE]. *)
Lemma returned_ring_systems_stereo_repaired_witness :
  stereo <$> bonds ethylidenecyclohexane !! 6 = Some STEREOE ∧
  ∃ rs bnd,
    (find_ring_systems (Some 0) false true [ethylidenecyclohexane]).1 = Ok [MolItem (Some 4)] ∧
    (find_ring_systems (Some 0) false true [ethylidenecyclohexane]).2 !! 4 = Some rs ∧
    bonds rs !! 6 = Some bnd ∧
    begin_idx bnd = 0 ∧ end_idx bnd = 6 ∧
    GetBondType bnd = DOUBLE ∧
    GetDegree rs (begin_idx bnd) = 3 ∧ GetDegree rs (end_idx bnd) = 1 ∧
    stereo bnd = STEREONONE.
Proof.
  split; [reflexivity|].
  assert (find_ring_systems (Some 0) false true [ethylidenecyclohexane] =
          (Ok [MolItem (Some 4)],
           (find_ring_systems (Some 0) false true [ethylidenecyclohexane]).2))
    as Hrun by (vm_compute; reflexivity).
  destruct (returned_ring_systems_stereo_repaired _ _ _ _ _ _ Hrun) as (refs & Hout & Hrefs).
  clear Hrun.
  destruct refs as [|r [|? ?]]; [discriminate Hout| |discriminate Hout].
  injection Hout as <-.
  destruct (Hrefs (Some 4) (list_elem_of_here _ _)) as (l & rs & Hl & Hrs & Hrepaired).
  injection Hl as <-. clear Hrefs.
  assert (∃ bnd, bonds rs !! 6 = Some bnd ∧ begin_idx bnd = 0 ∧ end_idx bnd = 6 ∧
                 GetBondType bnd = DOUBLE ∧
                 GetDegree rs (begin_idx bnd) = 3 ∧ GetDegree rs (end_idx bnd) = 1)
    as (bnd & Hbnd & Hb & He & Hty & Hd0 & Hd6).
  { clear Hrepaired. vm_compute in Hrs. injection Hrs as <-. eexists.
    split; [reflexivity|]. split; [reflexivity|]. split; [reflexivity|].
    split; [reflexivity|]. split; vm_compute; reflexivity. }
  exists rs, bnd. split; [clear; vm_compute; reflexivity|]. split; [exact Hrs|].
  split; [exact Hbnd|]. split; [exact Hb|]. split; [exact He|]. split; [exact Hty|].
  split; [exact Hd0|]. split; [exact Hd6|].
  apply Hrepaired; [exact (list_elem_of_lookup_2 _ _ _ Hbnd)|exact Hty|right; exact Hd6].
Defined.

(** C8 as the specification has it fails: with [keep_dummy] the isotope tag
    of the placeholder is not left as it was. *)
Lemma keep_dummy_clears_isotope :
  GetAtomicNum <$> atoms phenyl_fragment !! 6 = Some 0 ∧
  isotope <$> atoms phenyl_fragment !! 6 = Some 6 ∧
  isotope <$> atoms (cleanup_atoms_on true phenyl_fragment) !! 6 = Some 0.
Proof. repeat split. Qed.

(** C8, on the placeholder of the phenyl fragment. *)
Lemma cleanup_atoms_placeholders_witness :
  ∃ atm',
    atoms (cleanup_atoms_on true phenyl_fragment) !! 6 = Some atm' ∧
    isotope atm' = 0 ∧ atomic_num atm' = 0 ∧ atom_props atm' !! "atomLabel" = Some "R".
Proof.
  destruct (cleanup_atoms_placeholders true phenyl_fragment 6 (dummy 6) eq_refl)
    as (_ & atm' & Hat & _ & _ & _ & Hdummy).
  destruct (Hdummy eq_refl) as (Hiso & Hnum & Hprops).
  exists atm'. rewrite Hprops. repeat split; try done.
Defined.

(** C9 as the specification has it fails: at the defaults the list holds
    strings, not ring-system objects. *)
Lemma defaults_return_text :
  (find_ring_systems (Some 0) false false [benzene]).1 =
    Ok [StrItem "cccccc 0:1 1:2 2:3 3:4 4:5 5:0"] ∧
  ∀ refs, (find_ring_systems (Some 0) false false [benzene]).1 ≠ Ok (MolItem <$> refs).
Proof.
  assert ((find_ring_systems (Some 0) false false [benzene]).1 =
          Ok [StrItem "cccccc 0:1 1:2 2:3 3:4 4:5 5:0"]) as H by (vm_compute; reflexivity).
  split; [done|]. intros refs. rewrite H. by destruct refs as [|? [|? ?]].
Qed.

(** C10 as the specification has it fails: after the call the input is not
    as it was; its bonds carry the [protected] flag. *)
Lemma find_ring_systems_tags_input :
  (find_ring_systems (Some 0) false false [benzene]).2 !! 0 = Some (tagged benzene) ∧
  tagged benzene ≠ benzene.
Proof. split; [vm_compute; reflexivity|discriminate]. Qed.

(** C10, on ethylbenzene: only the flags of its bonds change. *)
Lemma find_ring_systems_frame_witness :
  ∃ mol',
    (find_ring_systems (Some 0) false false [ethylbenzene]).2 !! 0 = Some mol' ∧
    atoms mol' = atoms ethylbenzene ∧
    Forall2 (λ bnd bnd', ∃ v, bnd' = SetBoolProp "protected" v bnd)
            (bonds ethylbenzene) (bonds mol').
Proof.
  exact (proj1 (find_ring_systems_frame [ethylbenzene] 0 ethylbenzene false false eq_refl)).
Defined.

End Examples.

(** * More of the module *)

From Stdlib Require Import Sorted.

Section Coverage.
Context `{rdkit : Chem}.

(** ** Which bonds tagging marks *)

Lemma retagged_joins (a b : nat) (bnd bnd' : Bond) :
  retagged bnd bnd' → joins a b bnd' = joins a b bnd.
Proof. by intros [v ->]. Qed.

Lemma GetBondBetweenAtoms_retagged (m m' : Mol) (a b : nat) :
  Forall2 retagged (bonds m) (bonds m') →
  GetBondBetweenAtoms m' a b = GetBondBetweenAtoms m a b.
Proof.
  intros H. unfold GetBondBetweenAtoms. symmetry. apply find_index_ext.
  eapply Forall2_impl; [done|]. intros x y Hxy. symmetry. by apply retagged_joins.
Qed.

(** The second loop raises a flag only on the bond of one of its tuples. *)
Lemma for_each_protect_match_only (ms : list (list nat)) :
  ∀ m m', Forall (bonded_pair m) ms →
    for_each protect_match ms m = Ok m' →
    ∀ i bnd', bonds m' !! i = Some bnd' →
      bond_props bnd' !! "protected" = Some true →
      (∃ bnd, bonds m !! i = Some bnd ∧ bond_props bnd !! "protected" = Some true) ∨
      (∃ a b, [a; b] ∈ ms ∧ GetBondBetweenAtoms m a b = Some i).
Proof.
  induction ms as [|t ms IH]; intros m m' Hms; simpl.
  - intros [= <-] i bnd' Hi Hf. left. eauto.
  - apply Forall_cons in Hms as [(a & b & i0 & -> & Hi0) Hms].
    destruct (protect_match_spec m a b i0 Hi0) as (m1 & Hm1 & _ & Hp1 & _).
    rewrite Hm1. simpl. intros Hrun i bnd' Hi Hf.
    assert (Forall (bonded_pair m1) ms) as Hms1
      by (eapply Forall_impl; [done|]; intros t; by apply bonded_pair_protects).
    destruct (IH m1 m' Hms1 Hrun i bnd' Hi Hf) as [(bnd1 & Hb1 & Hf1)|(a' & b' & Hin & Hg)].
    + destruct (decide (i = i0)) as [->|Hne].
      * right. exists a, b. split; [by left|done].
      * left. exists bnd1. split; [|done].
        unfold protect_match in Hm1. simpl in Hm1. rewrite Hi0 in Hm1.
        injection Hm1 as <-. simpl in Hb1.
        by rewrite list_lookup_alter_ne in Hb1.
    + right. exists a', b'. split; [by right|].
      by rewrite <- (GetBondBetweenAtoms_protects m m1).
Qed.

(** Tagging in full: it never raises; it leaves the atoms, the number of
    bonds and everything of a bond but the flag as they were; and the flag of
    the bond at [i] ends [true] exactly when [i] is the bond
    [GetBondBetweenAtoms] finds for some matched pair, [false] otherwise. *)
Lemma tag_bonds_to_preserve_on_flags (mol : Mol) :
  ∃ ms mol',
    GetSubstructMatches mol ring_db_pat = Ok ms ∧
    tag_bonds_to_preserve_on mol = Ok mol' ∧
    atoms mol' = atoms mol ∧
    length (bonds mol') = length (bonds mol) ∧
    ∀ i bnd, bonds mol !! i = Some bnd →
      ∃ v, bonds mol' !! i = Some (SetBoolProp "protected" v bnd) ∧
           (v = true ↔ ∃ a b, [a; b] ∈ ms ∧ GetBondBetweenAtoms mol a b = Some i).
Proof.
  destruct (tag_bonds_to_preserve_on_spec mol)
    as (ms & mol' & Hms & Htag & Hat & Hre & _ & Hall).
  exists ms, mol'. split; [done|]. split; [done|]. split; [done|].
  split; [symmetry; by eapply Forall2_length|].
  intros i bnd Hi.
  destruct (Forall2_lookup_l _ _ _ _ _ Hre Hi) as (bnd' & Hi' & v & ->).
  exists v. split; [done|]. split.
  - intros ->.
    unfold tag_bonds_to_preserve_on in Htag. rewrite ring_db_pat_parsed in Htag, Hms.
    unfold GetSubstructMatches, rbind in Htag, Hms. injection Hms as <-.
    set (m0 := with_bonds mol (SetBoolProp "protected" false <$> bonds mol)) in *.
    assert (Forall2 retagged (bonds mol) (bonds m0)) as Hre0 by apply init_retagged.
    destruct (for_each_protect_match_only _ m0 mol' (pattern_matches_bonded m0 _ _) Htag
                i _ Hi') as [(b0 & Hb0 & Hf0)|(a & b & Hin & Hg)].
    + simpl. apply lookup_insert_eq.
    + simpl in Hb0. rewrite list_lookup_fmap, Hi in Hb0. injection Hb0 as <-.
      simpl in Hf0. by rewrite lookup_insert_eq in Hf0.
    + exists a, b. split.
      * rewrite (pattern_matches_retagged mol m0) in Hin; [exact Hin|done|done].
      * by rewrite <- (GetBondBetweenAtoms_retagged mol m0).
  - intros (a & b & Hin & Hg).
    destruct (Hall _ Hin) as (a' & b' & j & bj & [= <- <-] & Hj & Hbj & Hfj).
    rewrite (GetBondBetweenAtoms_retagged mol mol') in Hj by done.
    rewrite Hg in Hj. injection Hj as <-. rewrite Hi' in Hbj. injection Hbj as <-.
    simpl in Hfj. rewrite lookup_insert_eq in Hfj. by injection Hfj.
Qed.

(** X1. [tag_bonds_to_preserve] never raises and changes nothing but the
    [protected] flag of the bonds: afterwards the flag of a bond is [true] if
    the bond is the one [GetBondBetweenAtoms] returns for a matched atom pair,
    and [false] for every other bond. *)
Theorem tagging_marks_exactly_matched_bonds (mol : Mol) :
  ∃ ms mol',
    GetSubstructMatches mol ring_db_pat = Ok ms ∧
    tag_bonds_to_preserve_on mol = Ok mol' ∧
    atoms mol' = atoms mol ∧
    length (bonds mol') = length (bonds mol) ∧
    ∀ i bnd, bonds mol !! i = Some bnd →
      ∃ bnd' v, bonds mol' !! i = Some bnd' ∧
        begin_idx bnd' = begin_idx bnd ∧ end_idx bnd' = end_idx bnd ∧
        GetBondType bnd' = GetBondType bnd ∧ IsInRing bnd' = IsInRing bnd ∧
        stereo bnd' = stereo bnd ∧
        (∀ key, key ≠ "protected" → bond_props bnd' !! key = bond_props bnd !! key) ∧
        GetBoolProp "protected" bnd' = Ok v ∧
        (v = true ↔ ∃ a b, [a; b] ∈ ms ∧ GetBondBetweenAtoms mol a b = Some i).
Proof.
  destruct (tag_bonds_to_preserve_on_flags mol) as (ms & mol' & Hms & Htag & Hat & Hlen & Hall).
  exists ms, mol'. split; [done|]. split; [done|]. split; [done|]. split; [done|].
  intros i bnd Hi. destruct (Hall i bnd Hi) as (v & Hi' & Hv).
  exists (SetBoolProp "protected" v bnd), v. split; [done|]. repeat (split; [done|]).
  split; [|split; [|done]].
  - intros key Hkey. simpl. by rewrite lookup_insert_ne.
  - unfold GetBoolProp. simpl. by rewrite lookup_insert_eq.
Qed.

(** No two bonds of the molecule join the same two atoms. *)
Definition simple_graph (mol : Mol) : Prop :=
  ∀ i j bi bj, bonds mol !! i = Some bi → bonds mol !! j = Some bj →
    joins (begin_idx bi) (end_idx bi) bj = true → i = j.

Lemma joins_sym (a b : nat) (bnd : Bond) : joins a b bnd = joins b a bnd.
Proof. unfold joins. apply orb_comm. Qed.

(** X3. On a molecule in which no two bonds join the same atoms, the flags
    decide nothing: the cut set computed after tagging is the set of all
    single bonds outside rings, because the pattern marks double bonds only. *)
Theorem cut_set_after_tagging (mol : Mol) :
  simple_graph mol →
  ∃ mol' cuts,
    tag_bonds_to_preserve_on mol = Ok mol' ∧
    frag_bond_list mol' = Ok cuts ∧
    ∀ i, i ∈ cuts ↔
         ∃ bnd, bonds mol !! i = Some bnd ∧ IsInRing bnd = false ∧ GetBondType bnd = SINGLE.
Proof.
  intros Hsimple.
  destruct (tag_bonds_to_preserve_on_flags mol) as (ms & mol' & Hms & Htag & Hat & Hlen & Hall).
  destruct (tag_bonds_to_preserve_on_spec mol) as (_ & mol'' & _ & Htag' & _ & _ & Hfl & _).
  rewrite Htag in Htag'. injection Htag' as <-.
  destruct (frag_bond_list_spec mol' Hfl) as (cuts & Hcuts & Hin).
  exists mol', cuts. split; [done|]. split; [done|]. intros i. rewrite Hin. split.
  - intros (bnd' & Hi' & Hr & _ & Hty).
    assert (is_Some (bonds mol !! i)) as [bnd Hi].
    { apply lookup_lt_is_Some. rewrite <- Hlen. by eapply lookup_lt_Some. }
    destruct (Hall i bnd Hi) as (v & Hi2 & _). rewrite Hi' in Hi2. injection Hi2 as ->.
    by exists bnd.
  - intros (bnd & Hi & Hr & Hty). destruct (Hall i bnd Hi) as (v & Hi' & Hv).
    exists (SetBoolProp "protected" v bnd). split; [done|]. split; [done|]. split; [|done].
    unfold GetBoolProp. simpl. rewrite lookup_insert_eq. f_equal.
    destruct v; [|done]. exfalso.
    destruct (proj1 Hv eq_refl) as (a & b & Hab & Hg).
    rewrite ring_db_pat_parsed in Hms. injection Hms as <-.
    apply ring_db_pat_matches in Hab
      as (bk & a' & b' & _ & _ & [= <- <-] & Hbk & Hd & Hends & _).
    apply list_elem_of_lookup in Hbk as [k Hk].
    apply find_index_Some in Hg as (bi & Hbi & Hj).
    rewrite Hi in Hbi. injection Hbi as <-.
    assert (joins (begin_idx bk) (end_idx bk) bnd = true) as Hjk.
    { destruct Hends as [[-> ->]|[-> ->]]; [done|]. by rewrite joins_sym. }
    pose proof (Hsimple k i bk bnd Hk Hi Hjk) as ->.
    rewrite Hi in Hk. injection Hk as ->. unfold GetBondType in Hty. congruence.
Qed.

(** ** The cut set: uninitialised flags, bounds and order *)

Lemma frag_bonds_from_raise (bnds : list Bond) (idx : nat) (e : PyError) :
  frag_bonds_from idx bnds = Raise e →
  e = KeyError ∧
  ∃ bnd, bnd ∈ bnds ∧ IsInRing bnd = false ∧ bond_props bnd !! "protected" = None.
Proof.
  revert idx. induction bnds as [|bnd bnds IH]; intros idx; simpl; [done|].
  unfold is_linker_bond, GetBoolProp.
  destruct (IsInRing bnd) eqn:Hr; simpl.
  - destruct (frag_bonds_from (S idx) bnds) as [l|e'] eqn:Hrest; simpl; [done|].
    intros [= ->]. destruct (IH _ Hrest) as (-> & b & ? & ? & ?).
    split; [done|]. exists b. split; [by right|done].
  - destruct (bond_props bnd !! "protected") as [v|] eqn:Hv; simpl.
    + destruct (frag_bonds_from (S idx) bnds) as [l|e'] eqn:Hrest; simpl; [done|].
      intros [= ->]. destruct (IH _ Hrest) as (-> & b & ? & ? & ?).
      split; [done|]. exists b. split; [by right|done].
    + intros [= <-]. split; [done|]. exists bnd. split; [by left|done].
Qed.

Lemma frag_bonds_from_Ok (bnds : list Bond) (idx : nat) (cuts : list nat) :
  frag_bonds_from idx bnds = Ok cuts →
  Forall (λ bnd, IsInRing bnd = false → is_Some (bond_props bnd !! "protected")) bnds ∧
  Forall (λ i, idx ≤ i < idx + length bnds) cuts ∧
  StronglySorted lt cuts.
Proof.
  revert idx cuts. induction bnds as [|bnd bnds IH]; intros idx cuts; simpl.
  - intros [= <-]. repeat constructor.
  - destruct (is_linker_bond bnd) as [cut|e] eqn:Hcut; simpl; [|done].
    destruct (frag_bonds_from (S idx) bnds) as [l|e] eqn:Hrest; simpl; [|done].
    intros [= <-]. destruct (IH _ _ Hrest) as (Hfl & Hb & Hs).
    split; [|split].
    + constructor; [|done]. intros Hr. unfold is_linker_bond, GetBoolProp in Hcut.
      rewrite Hr in Hcut. simpl in Hcut.
      destruct (bond_props bnd !! "protected"); [by eexists|done].
    + assert (Forall (λ i, idx ≤ i < idx + S (length bnds)) l) as Hl
        by (eapply Forall_impl; [done|]; simpl; intros; lia).
      destruct cut; [|done]. constructor; [lia|done].
    + destruct cut; [|done]. constructor; [done|].
      eapply Forall_impl; [done|]. simpl. intros; lia.
Qed.

(** X4. The flag is read on the bonds outside rings only. The cut set is
    computed without error exactly when each of them has the flag set;
    otherwise [cleave_linker_bonds] raises [KeyError], the only error of this
    step, before anything is written. *)
Theorem cleave_linker_bonds_unset_flag (σ : Store) (l : loc) (mol : Mol) :
  σ !! l = Some mol →
  ((∃ bnd, bnd ∈ bonds mol ∧ IsInRing bnd = false ∧ bond_props bnd !! "protected" = None) ↔
   frag_bond_list mol = Raise KeyError) ∧
  (∀ e, frag_bond_list mol = Raise e → e = KeyError) ∧
  (frag_bond_list mol = Raise KeyError →
   cleave_linker_bonds (Some l) σ = (Raise KeyError, σ)).
Proof.
  intros Hl. split; [|split].
  - split.
    + intros (bnd & Hin & Hr & Hnone).
      destruct (frag_bond_list mol) as [cuts|e] eqn:Hc.
      * apply frag_bonds_from_Ok in Hc as (Hfl & _). rewrite Forall_forall in Hfl.
        destruct (Hfl bnd Hin Hr) as [v Hv]. congruence.
      * by apply frag_bonds_from_raise in Hc as [-> _].
    + intros Hc. by apply frag_bonds_from_raise in Hc as [_ ?].
  - intros e Hc. by apply frag_bonds_from_raise in Hc as [-> _].
  - intros Hc. unfold cleave_linker_bonds, bind, deref, lift. by rewrite Hl, Hc.
Qed.

(** X5. The cut set lists bond indices of the molecule in strictly
    increasing order: every index handed to [FragmentOnBonds] is in range and
    none is handed twice. *)
Theorem frag_bond_list_sorted (mol : Mol) (cuts : list nat) :
  frag_bond_list mol = Ok cuts →
  Forall (λ i, i < length (bonds mol)) cuts ∧ StronglySorted lt cuts ∧ NoDup cuts.
Proof.
  intros Hc. apply frag_bonds_from_Ok in Hc as (_ & Hb & Hs).
  split; [|split; [done|]].
  - eapply Forall_impl; [done|]. simpl. intros; lia.
  - clear Hb. induction Hs as [|i l _ IH Hlt]; constructor; [|done].
    intros Hin. rewrite Forall_forall in Hlt. specialize (Hlt _ Hin). lia.
Qed.

(** X6. When the cut set is not empty, an exception of [FragmentOnBonds] or
    of [SanitizeMol] is the outcome of [cleave_linker_bonds]: no molecule is
    returned, and the objects the store held, the input among them, are as
    they were. *)
Theorem cleave_linker_bonds_propagates (σ : Store) (l : loc) (mol : Mol) (cuts : list nat) :
  σ !! l = Some mol →
  frag_bond_list mol = Ok cuts →
  cuts ≠ [] →
  (∀ e, FragmentOnBonds mol cuts = Raise e →
        cleave_linker_bonds (Some l) σ = (Raise e, σ)) ∧
  (∀ fm e, FragmentOnBonds mol cuts = Ok fm → SanitizeMol fm = Raise e →
           cleave_linker_bonds (Some l) σ = (Raise e, σ ++ [fm])).
Proof.
  intros Hl Hc Hne. unfold cleave_linker_bonds, bind, deref, lift. rewrite Hl, Hc.
  destruct cuts as [|c cuts]; [done|]. simpl. split.
  - intros e ->. done.
  - intros fm e -> Hsan. unfold in_place, alloc, bind, deref, lift.
    rewrite lookup_app_r, Nat.sub_diag by lia. simpl. by rewrite Hsan.
Qed.

(** ** [fix_bond_stereo] *)

Lemma fix_bond_degree_ext (m m' : Mol) (bnd : Bond) :
  (∀ i, GetDegree m' i = GetDegree m i) → fix_bond m' bnd = fix_bond m bnd.
Proof. intros H. unfold fix_bond. by rewrite !H. Qed.

Lemma fix_bond_twice (m : Mol) (bnd : Bond) : fix_bond m (fix_bond m bnd) = fix_bond m bnd.
Proof.
  unfold fix_bond at 2. case_bool_decide as Hd; [|unfold fix_bond; by rewrite bool_decide_eq_false_2].
  destruct (_ || _) eqn:Hdeg; unfold fix_bond.
  - unfold GetBondType in *. simpl. rewrite bool_decide_eq_true_2 by done. by rewrite Hdeg.
  - rewrite bool_decide_eq_true_2 by done. by rewrite Hdeg.
Qed.

(** X7. [fix_bond_stereo] returns the reference it was given and rewrites
    that object where it stands. It changes nothing but the stereo
    designation of bonds: a bond is changed only if it is double with an end
    of degree 1, and then only its stereo is set to [STEREONONE]. Run a
    second time it changes nothing more. *)
Theorem fix_bond_stereo_frame (σ : Store) (l : loc) (mol : Mol) :
  σ !! l = Some mol →
  fix_bond_stereo (Some l) σ = (Ok (Some l), <[l := fix_bond_stereo_on mol]> σ) ∧
  atoms (fix_bond_stereo_on mol) = atoms mol ∧
  Forall2 (λ bnd bnd',
             bnd' = bnd ∨
             (bnd' = SetStereo STEREONONE bnd ∧ GetBondType bnd = DOUBLE ∧
              (GetDegree mol (begin_idx bnd) = 1 ∨ GetDegree mol (end_idx bnd) = 1)))
          (bonds mol) (bonds (fix_bond_stereo_on mol)) ∧
  fix_bond_stereo_on (fix_bond_stereo_on mol) = fix_bond_stereo_on mol.
Proof.
  intros Hl. split; [|split; [done|split]].
  - unfold fix_bond_stereo, in_place, bind, deref, lift, write, ret. by rewrite Hl.
  - simpl. apply Forall2_fmap_r, Forall_Forall2_diag, Forall_forall. intros b _. simpl.
    unfold fix_bond. case_bool_decide as Hd; [|by left].
    destruct (_ || _) eqn:Hdeg; [|by left]. right. split; [done|]. split; [done|].
    apply orb_true_iff in Hdeg as [H|H]; apply Nat.eqb_eq in H; auto.
  - set (m1 := fix_bond_stereo_on mol).
    assert (fix_bond m1 <$> bonds m1 = bonds m1) as Hb.
    { unfold m1 at 2 3. simpl. rewrite <- list_fmap_compose. apply list_fmap_ext.
      intros _ b _. simpl.
      rewrite (fix_bond_degree_ext mol m1) by apply GetDegree_fix_bond_stereo.
      apply fix_bond_twice. }
    unfold fix_bond_stereo_on at 1. unfold with_bonds. rewrite Hb. done.
Qed.

(** ** The loop over the atoms *)

Lemma cleanup_atom_twice (kd : bool) (atm : Atom) :
  cleanup_atom kd (cleanup_atom kd atm) = cleanup_atom kd atm.
Proof.
  unfold cleanup_atom, GetAtomicNum.
  destruct (atomic_num atm =? 0) eqn:Hz; [|by rewrite Hz].
  destruct kd; unfold SetIsotope, SetProp, SetAtomicNum; simpl;
    rewrite ?Hz; simpl; rewrite ?insert_insert_eq; done.
Qed.

(** X8. After the loop over the atoms of a fragment without [keep_dummy], no
    atom of atomic number 0 is left; with [keep_dummy] the atoms of atomic
    number 0 are the same as before, each now with isotope 0 and the label
    [R]. The number of atoms does not change, and running the loop again
    changes nothing. *)
Theorem cleanup_atoms_on_placeholders_gone (keep_dummy : bool) (frag : Mol) :
  length (atoms (cleanup_atoms_on keep_dummy frag)) = length (atoms frag) ∧
  (keep_dummy = false →
   Forall (λ atm, GetAtomicNum atm ≠ 0) (atoms (cleanup_atoms_on false frag))) ∧
  (keep_dummy = true →
   Forall2 (λ atm atm', GetAtomicNum atm' = GetAtomicNum atm ∧
                        (GetAtomicNum atm' = 0 →
                         isotope atm' = 0 ∧ atom_props atm' !! "atomLabel" = Some "R"))
           (atoms frag) (atoms (cleanup_atoms_on true frag))) ∧
  cleanup_atoms_on keep_dummy (cleanup_atoms_on keep_dummy frag) =
    cleanup_atoms_on keep_dummy frag.
Proof.
  split; [|split; [|split]].
  - simpl. apply length_fmap.
  - intros _. simpl. apply Forall_fmap, Forall_forall. intros atm _. simpl.
    unfold cleanup_atom, GetAtomicNum. destruct (atomic_num atm =? 0) eqn:Hz; simpl; [done|].
    by apply Nat.eqb_neq.
  - intros _. simpl. apply Forall2_fmap_r, Forall_Forall2_diag, Forall_forall.
    intros atm _. simpl. unfold cleanup_atom, GetAtomicNum.
    destruct (atomic_num atm =? 0) eqn:Hz; simpl.
    + apply Nat.eqb_eq in Hz. split; [done|]. intros _. split; [done|].
      apply lookup_insert_eq.
    + apply Nat.eqb_neq in Hz. split; [done|]. intros ?. done.
  - unfold cleanup_atoms_on, with_atoms. simpl. f_equal.
    rewrite <- list_fmap_compose. apply list_fmap_ext. intros _ atm _. simpl.
    apply cleanup_atom_twice.
Qed.

(** ** Which fragments are kept *)

(** Some atom of the molecule is in a ring. *)
Definition has_ring_atom (mol : Mol) : bool :=
  existsb (λ atm, 0 <? num_rings atm) (atoms mol).

Lemma HasSubstructMatch_ring_atom (mol : Mol) :
  HasSubstructMatch mol ring_atom_pat = Ok (has_ring_atom mol).
Proof.
  rewrite ring_atom_pat_parsed. unfold HasSubstructMatch, GetSubstructMatches, rbind.
  f_equal. simpl.
  set (hits := filter (λ i, atom_at_matches mol [[InRing]] i = true)
                      (seq 0 (length (atoms mol)))).
  assert (hits ≠ [] ↔ has_ring_atom mol = true) as Hiff.
  { unfold has_ring_atom. rewrite existsb_exists. split.
    - intros Hne. destruct hits as [|i hits'] eqn:Hh; [done|].
      assert (i ∈ hits) as Hi by (rewrite Hh; by left).
      apply list_elem_of_filter in Hi as [Hm _].
      apply atom_at_matches_Some in Hm as (atm & Hat & Hq).
      exists atm. split; [by eapply list_elem_of_In, list_elem_of_lookup_2|].
      unfold atom_matches in Hq. simpl in Hq. by rewrite andb_true_r, orb_false_r in Hq.
    - intros (atm & Hin & Hr). apply list_elem_of_In, list_elem_of_lookup in Hin as [i Hi].
      assert (i ∈ hits) as Hh.
      { apply list_elem_of_filter. split.
        - apply atom_at_matches_Some. exists atm. split; [done|].
          unfold atom_matches. simpl. by rewrite Hr.
        - apply elem_of_seq. apply lookup_lt_Some in Hi. lia. }
      intros Heq. rewrite Heq in Hh. by apply elem_of_nil in Hh. }
  destruct hits as [|i hits'].
  - simpl. destruct (has_ring_atom mol); [|done]. by destruct (proj2 Hiff eq_refl).
  - simpl. symmetry. by apply Hiff.
Qed.

(** ** The pipeline on values

    What the methods compute, read off the objects they leave in the store:
    the state of the molecule [cleave_linker_bonds] returns, the ring systems
    [cleanup_fragments] makes of a list of fragments, and their texts. *)

Definition cleave_on (mol : Mol) : Result Mol :=
  try cuts := frag_bond_list mol in
  if negb (length cuts =? 0) then
    try fm := FragmentOnBonds mol cuts in SanitizeMol fm
  else Ok mol.

Fixpoint normalize_fragments (kd : bool) (frags : list Mol) : Result (list Mol) :=
  match frags with
  | [] => Ok []
  | f :: fs =>
      if has_ring_atom f then
        try noh := RemoveAllHs (cleanup_atoms_on kd f) in
        try rest := normalize_fragments kd fs in
        Ok (fix_bond_stereo_on noh :: rest)
      else normalize_fragments kd fs
  end.

Definition ring_systems_on (kd : bool) (mol : Mol) : Result (list Mol) :=
  try mol' := tag_bonds_to_preserve_on mol in
  try fm := cleave_on mol' in
  try frags := GetMolFrags fm in
  normalize_fragments kd frags.

Fixpoint smiles_all (rs : list Mol) : Result (list PyItem) :=
  match rs with
  | [] => Ok []
  | m :: rs' =>
      try s := MolToSmiles m in
      try rest := smiles_all rs' in
      Ok (StrItem s :: rest)
  end.

(** [r] refers to an object of [σ] past position [n] whose state is [m]. *)
Definition holds_at (σ : Store) (n : nat) (r : PyRef) (m : Mol) : Prop :=
  ∃ l, r = Some l ∧ n ≤ l ∧ σ !! l = Some m.

Lemma cleanup_fragment_eq (kd : bool) (acc : list PyRef) (f : loc) (fm : Mol) (σ : Store) :
  σ !! f = Some fm →
  cleanup_fragment kd acc (Some f) σ =
  if has_ring_atom fm then
    match RemoveAllHs (cleanup_atoms_on kd fm) with
    | Ok noh => (Ok (acc ++ [Some (length σ)]),
                 <[f := cleanup_atoms_on kd fm]> σ ++ [fix_bond_stereo_on noh])
    | Raise e => (Raise e, <[f := cleanup_atoms_on kd fm]> σ)
    end
  else (Ok acc, σ).
Proof.
  intros Hf. pose proof (lookup_lt_Some _ _ _ Hf) as Hlt.
  unfold cleanup_fragment, bind, deref, lift, ret. rewrite Hf.
  rewrite HasSubstructMatch_ring_atom. destruct (has_ring_atom fm); [|done].
  unfold in_place, bind, deref, lift, write. rewrite Hf.
  rewrite list_lookup_insert_eq by done.
  destruct (RemoveAllHs _) as [noh|e]; [|done].
  unfold fix_bond_stereo, alloc, in_place, bind, deref, lift, write, ret.
  rewrite lookup_app_r, Nat.sub_diag by lia. simpl.
  rewrite insert_app_r_alt, Nat.sub_diag by lia. simpl.
  by rewrite length_insert.
Qed.

Lemma cleanup_loop_value (kd : bool) (rest : list PyRef) (frags : list Mol) :
  ∀ (acc : list PyRef) (σ σ' : Store) (res : Result (list PyRef)),
    Forall2 (λ r f, ∃ l, r = Some l ∧ σ !! l = Some f) rest frags →
    NoDup rest →
    for_eachM (cleanup_fragment kd) rest acc σ = (res, σ') →
    length σ ≤ length σ' ∧
    (∀ l, l < length σ → Some l ∉ rest → σ' !! l = σ !! l) ∧
    match normalize_fragments kd frags with
    | Ok rs => ∃ out, res = Ok (acc ++ out) ∧
                      Forall2 (holds_at σ' (length σ)) out rs ∧ NoDup out
    | Raise e => res = Raise e
    end.
Proof.
  revert frags. induction rest as [|r rest IH]; intros frags acc σ σ' res Hpts Hnd.
  - apply Forall2_nil_inv_l in Hpts as ->. simpl. intros [= <- <-].
    split; [done|]. split; [done|]. exists []. rewrite app_nil_r. repeat constructor.
  - apply Forall2_cons_inv_l in Hpts as (fm & frags' & (f & -> & Hf) & Hpts & ->).
    apply NoDup_cons in Hnd as [Hnin Hnd].
    assert (∀ r', r' ∈ rest → ∃ l, r' = Some l ∧ l < length σ ∧ l ≠ f) as Hrest.
    { intros r' Hin. pose proof Hin as Hin'.
      apply list_elem_of_lookup in Hin as [i Hi].
      destruct (Forall2_lookup_l _ _ _ _ _ Hpts Hi) as (f' & _ & l & -> & Hl).
      exists l. split; [done|]. split; [by eapply lookup_lt_Some|]. congruence. }
    pose proof (lookup_lt_Some _ _ _ Hf) as Hlt.
    simpl. unfold bind. rewrite (cleanup_fragment_eq kd acc f fm σ Hf).
    destruct (has_ring_atom fm).
    + destruct (RemoveAllHs (cleanup_atoms_on kd fm)) as [noh|e]; simpl.
      * set (σ1 := <[f := cleanup_atoms_on kd fm]> σ ++ [fix_bond_stereo_on noh]).
        assert (length σ1 = S (length σ)) as Hlen1
          by (unfold σ1; rewrite length_app, length_insert; simpl; lia).
        assert (∀ l, l < length σ → l ≠ f → σ1 !! l = σ !! l) as Hsame.
        { intros l Hl Hne. unfold σ1. rewrite lookup_app_l by (by rewrite length_insert).
          by rewrite list_lookup_insert_ne. }
        intros Hrun. eapply IH in Hrun as (Hle & Hframe & Hval); [|..|done].
        2:{ apply Forall2_same_length_lookup. split; [by eapply Forall2_length|].
            intros i r' f' Hi Hi'.
            destruct (Forall2_lookup_lr _ _ _ _ _ _ Hpts Hi Hi') as (l & -> & Hl).
            exists l. split; [done|].
            destruct (Hrest (Some l)) as (l2 & [= <-] & Hlt2 & Hne2);
              [by eapply list_elem_of_lookup_2|].
            by rewrite Hsame. }
        split; [lia|]. split.
        -- intros l Hl Hni. apply not_elem_of_cons in Hni as [Hne Hni].
           rewrite Hframe by (done || lia). apply Hsame; [done|congruence].
        -- destruct (normalize_fragments kd frags') as [rs|e]; simpl; [|done].
           destruct Hval as (out & -> & Hout & Hndo).
           exists (Some (length σ) :: out). split; [by rewrite <- app_assoc|]. split.
           ++ constructor.
              ** exists (length σ). split; [done|]. split; [done|].
                 rewrite Hframe; [|lia|].
                 --- unfold σ1. rewrite lookup_app_r by (by rewrite length_insert).
                     by rewrite length_insert, Nat.sub_diag.
                 --- intros Hin. destruct (Hrest _ Hin) as (l & [= <-] & ? & _). lia.
              ** eapply Forall2_impl; [done|]. intros r' m (l & -> & ? & ?).
                 exists l. split; [done|]. split; [lia|done].
           ++ constructor; [|done]. intros Hin.
              apply list_elem_of_lookup in Hin as [i Hi].
              destruct (Forall2_lookup_l _ _ _ _ _ Hout Hi) as (m & _ & l & [= <-] & ? & _).
              lia.
      * intros [= <- <-]. rewrite length_insert. split; [done|]. split; [|done].
        intros l _ Hni. apply not_elem_of_cons in Hni as [Hne _].
        apply list_lookup_insert_ne. congruence.
    + intros Hrun. eapply IH in Hrun as (Hle & Hframe & Hval); [|done..].
      split; [done|]. split; [|done].
      intros l Hl Hni. apply not_elem_of_cons in Hni as [_ Hni]. by apply Hframe.
Qed.

Lemma cleanup_fragments_value (kd : bool) (l : loc) (fm : Mol) (σ σ' : Store)
    (res : Result (list PyRef)) :
  σ !! l = Some fm →
  cleanup_fragments (Some l) kd σ = (res, σ') →
  length σ ≤ length σ' ∧
  (∀ l0, l0 < length σ → σ' !! l0 = σ !! l0) ∧
  match (try frags := GetMolFrags fm in normalize_fragments kd frags) with
  | Ok rs => ∃ out, res = Ok out ∧ Forall2 (holds_at σ' (length σ)) out rs ∧ NoDup out
  | Raise e => res = Raise e
  end.
Proof.
  intros Hl. unfold cleanup_fragments, bind, deref, lift. rewrite Hl.
  destruct (GetMolFrags fm) as [frags|e]; simpl; [|by intros [= <- <-]].
  rewrite mapM_alloc. intros Hrun.
  apply (cleanup_loop_value kd _ frags) in Hrun as (Hle & Hframe & Hval).
  - rewrite length_app in Hle. split; [lia|]. split.
    + intros l0 Hl0. rewrite Hframe.
      * by apply lookup_app_l.
      * rewrite length_app. lia.
      * intros (l1 & [= <-] & Hin%elem_of_seq)%list_elem_of_fmap. lia.
    + destruct (normalize_fragments kd frags) as [rs|e]; [|done].
      destruct Hval as (out & -> & Hout & Hnd). exists out. split; [done|]. split; [|done].
      eapply Forall2_impl; [done|]. intros r m (l1 & -> & Hl1 & ?).
      exists l1. rewrite length_app in Hl1. split; [done|]. split; [lia|done].
  - apply Forall2_fmap_l, Forall2_same_length_lookup. split; [by rewrite length_seq|].
    intros i l1 f Hi Hf. apply lookup_seq in Hi as [-> _]. simpl.
    exists (length σ + i). split; [done|].
    by rewrite lookup_app_r, Nat.add_comm, Nat.add_sub by lia.
  - apply NoDup_fmap; [apply _|apply NoDup_seq].
Qed.

Lemma cleave_linker_bonds_value (l : loc) (mol : Mol) (σ σ' : Store) (res : Result PyRef) :
  σ !! l = Some mol →
  cleave_linker_bonds (Some l) σ = (res, σ') →
  (∃ ext, σ' = σ ++ ext) ∧
  match cleave_on mol with
  | Ok fm => ∃ r, res = Ok (Some r) ∧ σ' !! r = Some fm
  | Raise e => res = Raise e
  end.
Proof.
  intros Hl Hrun. split; [by eapply cleave_linker_bonds_extends|].
  revert Hrun. unfold cleave_linker_bonds, cleave_on, bind, deref, lift, ret. rewrite Hl.
  destruct (frag_bond_list mol) as [cuts|e]; simpl; [|by intros [= <- <-]].
  destruct (negb _); [|intros [= <- <-]; by exists l].
  destruct (FragmentOnBonds mol cuts) as [fm|e]; simpl; [|by intros [= <- <-]].
  unfold in_place, alloc, bind, deref, lift, write.
  rewrite lookup_app_r, Nat.sub_diag by lia. simpl.
  destruct (SanitizeMol fm) as [fm'|e]; intros [= <- <-]; [|done].
  exists (length σ). split; [done|].
  rewrite insert_app_r_alt, Nat.sub_diag by lia. simpl.
  by rewrite lookup_app_r, Nat.sub_diag by lia.
Qed.

Lemma mapM_to_smiles_value (n : nat) (out : list PyRef) (rs : list Mol) (σ : Store) :
  Forall2 (holds_at σ n) out rs →
  mapM to_smiles out σ = (smiles_all rs, σ).
Proof.
  induction 1 as [|r m out rs (l & -> & _ & Hl) _ IH]; [done|].
  simpl. unfold bind at 1. unfold to_smiles at 1. unfold bind, deref, lift, ret.
  rewrite Hl. destruct (MolToSmiles m) as [s|e]; simpl; [|done].
  rewrite IH. by destruct (smiles_all rs).
Qed.

(** The two modes of [find_ring_systems] on the object at [l]: the text mode
    returns the texts of [ring_systems_on] of the molecule, with the same
    exception if there is one; the other mode returns references to new
    objects, all different, that hold those ring systems. *)
Lemma find_ring_systems_value (σ : Store) (l : loc) (mol : Mol) (kd : bool) :
  σ !! l = Some mol →
  (find_ring_systems (Some l) kd false σ).1 =
    (try rs := ring_systems_on kd mol in smiles_all rs) ∧
  match ring_systems_on kd mol with
  | Ok rs => ∃ refs,
      (find_ring_systems (Some l) kd true σ).1 = Ok (MolItem <$> refs) ∧
      Forall2 (holds_at (find_ring_systems (Some l) kd true σ).2 (length σ)) refs rs ∧
      NoDup refs
  | Raise e => (find_ring_systems (Some l) kd true σ).1 = Raise e
  end.
Proof.
  intros Hl. pose proof (lookup_lt_Some _ _ _ Hl) as Hlt.
  destruct (tag_bonds_to_preserve_run σ l mol Hl) as (mol' & Htag & Hrun).
  assert (∀ am, find_ring_systems (Some l) kd am σ =
                (do frag_mol <- cleave_linker_bonds (Some l);
                 do output_list <- cleanup_fragments frag_mol kd;
                 if negb am then mapM to_smiles output_list
                 else ret (MolItem <$> output_list)) (<[l := mol']> σ)) as Hstep.
  { intros am. unfold find_ring_systems. unfold bind at 1. by rewrite Hrun. }
  unfold ring_systems_on. rewrite Htag. simpl.
  set (σt := <[l := mol']> σ) in *.
  assert (σt !! l = Some mol') as Hlt' by (by apply list_lookup_insert_eq).
  assert (length σt = length σ) as Hlent by apply length_insert.
  destruct (cleave_linker_bonds (Some l) σt) as [res1 σ1] eqn:Hcl.
  destruct (cleave_linker_bonds_value _ _ _ _ _ Hlt' Hcl) as [[ext1 ->] Hval1].
  assert (∀ am, find_ring_systems (Some l) kd am σ =
                match res1 with
                | Ok a =>
                    match cleanup_fragments a kd (σt ++ ext1) with
                    | (Ok output_list, σ2) =>
                        (if negb am then mapM to_smiles output_list
                         else ret (MolItem <$> output_list)) σ2
                    | (Raise e, σ2) => (Raise e, σ2)
                    end
                | Raise e => (Raise e, σt ++ ext1)
                end) as Hstep2.
  { intros am. rewrite Hstep. unfold bind at 1. rewrite Hcl. by destruct res1. }
  rewrite !Hstep2. clear Hstep Hstep2 Hrun Hcl.
  destruct (cleave_on mol') as [fm|e]; simpl.
  2:{ by rewrite Hval1. }
  destruct Hval1 as (r & -> & Hr).
  destruct (cleanup_fragments (Some r) kd (σt ++ ext1)) as [res2 σ2] eqn:Hcf.
  destruct (cleanup_fragments_value _ _ _ _ _ _ Hr Hcf) as (Hle2 & Hframe2 & Hval2).
  destruct (GetMolFrags fm) as [frags|e]; simpl in *.
  2:{ by rewrite Hval2. }
  destruct (normalize_fragments kd frags) as [rs|e].
  2:{ by rewrite Hval2. }
  destruct Hval2 as (out & -> & Hout & Hnd). simpl. split.
  - by rewrite (mapM_to_smiles_value _ _ _ _ Hout).
  - exists out. split; [done|]. split; [|done].
    eapply Forall2_impl; [done|]. intros r' m (l' & -> & Hl' & ?).
    exists l'. rewrite length_app in Hl'. split; [done|]. split; [lia|done].
Qed.

(** The texts of a list of molecules: one string for each, in order. *)
Lemma smiles_all_spec (rs : list Mol) (out : list PyItem) :
  smiles_all rs = Ok out ↔
  Forall2 (λ m item, ∃ s, MolToSmiles m = Ok s ∧ item = StrItem s) rs out.
Proof.
  revert out. induction rs as [|m rs IH]; intros out; simpl.
  - split.
    + intros [= <-]. constructor.
    + intros Hnil. apply Forall2_nil_inv_l in Hnil. by rewrite Hnil.
  - split.
    + destruct (MolToSmiles m) as [s|e] eqn:Hs; simpl; [|done].
      destruct (smiles_all rs) as [rest|e]; simpl; [|done].
      intros [= <-]. constructor; [by exists s|by apply IH].
    + intros Hcons. apply Forall2_cons_inv_l in Hcons as (item & out' & (s & Hs & ->) & Hrest & ->).
      apply IH in Hrest. rewrite Hs, Hrest. done.
Qed.

(** Writing the texts creates no object and changes none: the two modes of
    [find_ring_systems] leave the same store. *)
Lemma find_ring_systems_mode_store (r : PyRef) (kd : bool) (σ : Store) :
  (find_ring_systems r kd false σ).2 = (find_ring_systems r kd true σ).2.
Proof.
  unfold find_ring_systems, bind.
  destruct (tag_bonds_to_preserve r σ) as [[?|?] σ1]; [|done].
  destruct (cleave_linker_bonds r σ1) as [[fm|?] σ2]; [|done].
  destruct (cleanup_fragments fm kd σ2) as [[out|?] σ3]; [|done].
  simpl. destruct (mapM to_smiles out σ3) as [res σ4] eqn:Hm.
  by apply mapM_to_smiles_run in Hm as [-> _].
Qed.

(** C9, as the code has it. The flag is [as_mols], and its default is
    [false]. The ring systems of the molecule are those of the decomposition,
    [ring_systems_on]: the fragments with an atom in a ring, in the order
    [GetMolFrags] gives them, each normalised. With [as_mols] set,
    [find_ring_systems] returns the ring-system objects themselves:
    references to objects of the final store that hold these ring systems,
    one for each, in that order. At the default it returns strings instead:
    [out] is returned exactly when it has one string for each ring system, in
    the same order, each the [MolToSmiles] text of that ring system; when a
    text cannot be written the call raises what [MolToSmiles] raised. The
    objects are the same in both modes, the final store being the same. When
    the decomposition raises, either mode raises the same exception. *)
Theorem find_ring_systems_default_is_text (σ : Store) (l : loc) (mol : Mol)
    (keep_dummy : bool) :
  σ !! l = Some mol →
  (find_ring_systems (Some l) keep_dummy false σ).2 =
    (find_ring_systems (Some l) keep_dummy true σ).2 ∧
  match ring_systems_on keep_dummy mol with
  | Ok rs =>
      (∃ refs,
         (find_ring_systems (Some l) keep_dummy true σ).1 = Ok (MolItem <$> refs) ∧
         Forall2 (λ r m, ∃ l', r = Some l' ∧
                    (find_ring_systems (Some l) keep_dummy true σ).2 !! l' = Some m)
                 refs rs) ∧
      (find_ring_systems (Some l) keep_dummy false σ).1 = smiles_all rs ∧
      (∀ out, (find_ring_systems (Some l) keep_dummy false σ).1 = Ok out ↔
              Forall2 (λ m item, ∃ s, MolToSmiles m = Ok s ∧ item = StrItem s) rs out)
  | Raise e =>
      (find_ring_systems (Some l) keep_dummy true σ).1 = Raise e ∧
      (find_ring_systems (Some l) keep_dummy false σ).1 = Raise e
  end.
Proof.
  intros Hl. split; [apply find_ring_systems_mode_store|].
  destruct (find_ring_systems_value σ l mol keep_dummy Hl) as [Htext Hmols].
  destruct (ring_systems_on keep_dummy mol) as [rs|e]; simpl in Htext.
  - destruct Hmols as (refs & Hout & Hrefs & _). split; [|split].
    + exists refs. split; [done|]. eapply Forall2_impl; [exact Hrefs|].
      intros r m (l' & -> & _ & Hl'). by exists l'.
    + done.
    + intros out. rewrite Htext. apply smiles_all_spec.
  - done.
Qed.

Lemma normalize_fragments_kept (kd : bool) (frags : list Mol) (rs : list Mol) :
  normalize_fragments kd frags = Ok rs →
  Forall2 (λ f m, ∃ noh, RemoveAllHs (cleanup_atoms_on kd f) = Ok noh ∧
                         m = fix_bond_stereo_on noh)
          (filter (λ f, has_ring_atom f = true) frags) rs.
Proof.
  revert rs. induction frags as [|f frags IH]; intros rs; simpl.
  - intros [= <-]. constructor.
  - rewrite filter_cons. destruct (decide (has_ring_atom f = true)) as [Hf|Hf].
    + rewrite Hf. destruct (RemoveAllHs _) as [noh|e] eqn:Hnoh; simpl; [|done].
      destruct (normalize_fragments kd frags) as [rest|e]; simpl; [|done].
      intros [= <-]. constructor; [by exists noh|by apply IH].
    + apply not_true_is_false in Hf. rewrite Hf. apply IH.
Qed.

(** X9. Of the fragments [GetMolFrags] gives, [cleanup_fragments] keeps those
    with an atom in a ring, in their order, and returns for each a new object:
    the fragment after the loop over its atoms, with its hydrogens removed and
    its stereo repaired. The references are all different, and the objects
    the store held before the call are left as they were. *)
Theorem cleanup_fragments_keeps_ring_fragments (σ σ' : Store) (l : loc) (fm : Mol)
    (frags : list Mol) (keep_dummy : bool) (out : list PyRef) :
  σ !! l = Some fm →
  GetMolFrags fm = Ok frags →
  cleanup_fragments (Some l) keep_dummy σ = (Ok out, σ') →
  Forall2 (λ f r, ∃ l' noh, r = Some l' ∧ length σ ≤ l' ∧
                    RemoveAllHs (cleanup_atoms_on keep_dummy f) = Ok noh ∧
                    σ' !! l' = Some (fix_bond_stereo_on noh))
          (filter (λ f, has_ring_atom f = true) frags) out ∧
  NoDup out ∧
  (∀ l0, l0 < length σ → σ' !! l0 = σ !! l0).
Proof.
  intros Hl Hfrags Hrun.
  destruct (cleanup_fragments_value _ _ _ _ _ _ Hl Hrun) as (_ & Hframe & Hval).
  rewrite Hfrags in Hval. simpl in Hval.
  destruct (normalize_fragments keep_dummy frags) as [rs|e] eqn:Hrs; [|done].
  destruct Hval as (out' & [= <-] & Hout & Hnd). split; [|done].
  apply normalize_fragments_kept in Hrs.
  eapply Forall2_trans; [|exact Hrs|apply Forall2_flip, Hout].
  intros f m r (noh & Hnoh & ->) (l' & -> & Hle & Hl'). by exists l', noh.
Qed.

(** X10. A molecule whose fragments have no atom in a ring gives no ring
    system: [cleanup_fragments] returns the empty list, whatever
    [RemoveAllHs] would do, and adds to the store the fragments only. *)
Theorem cleanup_fragments_no_ring (σ : Store) (l : loc) (fm : Mol) (frags : list Mol)
    (keep_dummy : bool) :
  σ !! l = Some fm →
  GetMolFrags fm = Ok frags →
  Forall (λ f, Forall (λ atm, num_rings atm = 0) (atoms f)) frags →
  cleanup_fragments (Some l) keep_dummy σ = (Ok [], σ ++ frags).
Proof.
  intros Hl Hfrags Hnone. unfold cleanup_fragments, bind, deref, lift.
  rewrite Hl, Hfrags, mapM_alloc.
  assert (∀ rest σ1 acc,
            Forall (λ r, ∃ l1 f, r = Some l1 ∧ σ1 !! l1 = Some f ∧ has_ring_atom f = false) rest →
            for_eachM (cleanup_fragment keep_dummy) rest acc σ1 = (Ok acc, σ1)) as Hloop.
  { induction rest as [|r rest IH]; intros σ1 acc Hall; [done|].
    apply Forall_cons in Hall as [(l1 & f & -> & Hl1 & Hf) Hall].
    simpl. unfold bind. rewrite (cleanup_fragment_eq _ _ _ _ _ Hl1), Hf. by apply IH. }
  apply Hloop. apply Forall_fmap, Forall_forall. intros i Hi%elem_of_seq. simpl.
  assert (is_Some (frags !! (i - length σ))) as [f Hf] by (apply lookup_lt_is_Some; lia).
  exists i, f. split; [done|]. split; [by rewrite lookup_app_r by lia|].
  rewrite Forall_forall in Hnone. specialize (Hnone f (list_elem_of_lookup_2 _ _ _ Hf)).
  unfold has_ring_atom. apply not_true_is_false. intros (atm & Hin & Hr)%existsb_exists.
  rewrite Forall_forall in Hnone. apply list_elem_of_In in Hin.
  rewrite (Hnone atm Hin) in Hr. done.
Qed.

(** Two bonds that differ in nothing but, possibly, the [protected] flag. *)
Definition same_but_flag (bnd bnd' : Bond) : Prop :=
  begin_idx bnd' = begin_idx bnd ∧ end_idx bnd' = end_idx bnd ∧
  GetBondType bnd' = GetBondType bnd ∧ IsInRing bnd' = IsInRing bnd ∧
  stereo bnd' = stereo bnd ∧
  ∀ key, key ≠ "protected" → bond_props bnd' !! key = bond_props bnd !! key.

Lemma same_but_flag_init (bnd bnd' : Bond) :
  same_but_flag bnd bnd' →
  SetBoolProp "protected" false bnd' = SetBoolProp "protected" false bnd.
Proof.
  destruct bnd, bnd'. unfold same_but_flag, SetBoolProp, GetBondType, IsInRing. simpl.
  intros (-> & -> & -> & -> & -> & Hprops). f_equal. apply map_eq. intros key.
  destruct (decide (key = "protected")) as [->|Hne].
  - by rewrite !lookup_insert_eq.
  - rewrite !lookup_insert_ne by done. by apply Hprops.
Qed.

Lemma tag_bonds_to_preserve_on_ext (m1 m2 : Mol) :
  atoms m2 = atoms m1 → Forall2 same_but_flag (bonds m1) (bonds m2) →
  tag_bonds_to_preserve_on m2 = tag_bonds_to_preserve_on m1.
Proof.
  intros Hat Hb. unfold tag_bonds_to_preserve_on.
  assert (SetBoolProp "protected" false <$> bonds m2 =
          SetBoolProp "protected" false <$> bonds m1) as Hinit.
  { induction Hb as [|b b' l l' Hbb _ IH]; [done|].
    rewrite !fmap_cons, IH. f_equal. by apply same_but_flag_init. }
  unfold with_bonds. by rewrite Hinit, Hat.
Qed.

(** The texts [find_ring_systems] returns are read off the molecule tagging
    leaves: the store and the reference make no difference. *)
Lemma text_mode_ext (σ1 σ2 : Store) (l1 l2 : loc) (m1 m2 : Mol) (kd : bool) :
  σ1 !! l1 = Some m1 → σ2 !! l2 = Some m2 →
  tag_bonds_to_preserve_on m2 = tag_bonds_to_preserve_on m1 →
  (find_ring_systems (Some l1) kd false σ1).1 = (find_ring_systems (Some l2) kd false σ2).1.
Proof.
  intros H1 H2 Htag.
  rewrite (proj1 (find_ring_systems_value σ1 l1 m1 kd H1)).
  rewrite (proj1 (find_ring_systems_value σ2 l2 m2 kd H2)).
  unfold ring_systems_on. by rewrite Htag.
Qed.

(** X11. In text mode the result of [find_ring_systems], list or exception,
    depends on the input molecule only: two calls on molecules with the same
    atoms and the same bonds, whatever their [protected] flags, return the
    same, in whatever stores and at whatever references the molecules are. *)
Theorem find_ring_systems_text_of_molecule (σ1 σ2 : Store) (l1 l2 : loc) (m1 m2 : Mol)
    (keep_dummy : bool) :
  σ1 !! l1 = Some m1 → σ2 !! l2 = Some m2 →
  atoms m2 = atoms m1 →
  Forall2 (λ bnd bnd',
             begin_idx bnd' = begin_idx bnd ∧ end_idx bnd' = end_idx bnd ∧
             GetBondType bnd' = GetBondType bnd ∧ IsInRing bnd' = IsInRing bnd ∧
             stereo bnd' = stereo bnd ∧
             ∀ key, key ≠ "protected" → bond_props bnd' !! key = bond_props bnd !! key)
          (bonds m1) (bonds m2) →
  (find_ring_systems (Some l1) keep_dummy false σ1).1 =
  (find_ring_systems (Some l2) keep_dummy false σ2).1.
Proof.
  intros H1 H2 Hat Hb. apply (text_mode_ext _ _ _ _ m1 m2); [done..|].
  by apply tag_bonds_to_preserve_on_ext.
Qed.

(** X12. A call of [find_ring_systems] on an object that an earlier call has
    already processed, in the store that call left, returns the same texts as
    the first: the flags the first call wrote on the input do not change the
    answer. *)
Theorem find_ring_systems_repeatable (σ : Store) (l : loc) (mol : Mol)
    (keep_dummy keep_dummy' as_mols : bool) :
  σ !! l = Some mol →
  (find_ring_systems (Some l) keep_dummy false
     (find_ring_systems (Some l) keep_dummy' as_mols σ).2).1 =
  (find_ring_systems (Some l) keep_dummy false σ).1.
Proof.
  intros Hl. pose proof (lookup_lt_Some _ _ _ Hl) as Hlt.
  destruct (find_ring_systems (Some l) keep_dummy' as_mols σ) as [res σ'] eqn:Hrun.
  destruct (find_ring_systems_run _ _ _ _ _ _ _ Hl Hrun) as (mol' & ext & Htag & -> & _).
  destruct (tag_bonds_to_preserve_on_spec mol) as (_ & mol'' & _ & Htag' & Hat & Hre & _).
  rewrite Htag in Htag'. injection Htag' as <-. simpl.
  symmetry. apply (text_mode_ext _ _ _ _ mol mol'); [done| |].
  - rewrite lookup_app_l by (by rewrite length_insert). by apply list_lookup_insert_eq.
  - by apply tag_bonds_to_preserve_on_retagged.
Qed.

(** X13. With [as_mols] the molecules returned are new objects: their
    references are all different and none is a reference of the store the
    call was given, so none is the input. *)
Theorem find_ring_systems_returns_new_objects (σ σ' : Store) (l : loc) (mol : Mol)
    (keep_dummy : bool) (out : list PyItem) :
  σ !! l = Some mol →
  find_ring_systems (Some l) keep_dummy true σ = (Ok out, σ') →
  ∃ refs, out = MolItem <$> refs ∧ NoDup refs ∧
          Forall (λ r, ∃ l', r = Some l' ∧ length σ ≤ l' < length σ') refs.
Proof.
  intros Hl Hrun. destruct (find_ring_systems_value σ l mol keep_dummy Hl) as [_ Hval].
  rewrite Hrun in Hval. simpl in Hval.
  destruct (ring_systems_on keep_dummy mol) as [rs|e]; [|done].
  destruct Hval as (refs & [= ->] & Hrefs & Hnd). exists refs. split; [done|]. split; [done|].
  apply Forall_forall. intros r Hr. apply list_elem_of_lookup in Hr as [i Hi].
  destruct (Forall2_lookup_l _ _ _ _ _ Hrefs Hi) as (m & _ & l' & -> & Hle & Hl').
  exists l'. split; [done|]. split; [done|]. by eapply lookup_lt_Some.
Qed.

(** ** The table and the column *)

(** The number of times [x] stands in [l]. *)
Definition occurrences (x : PyItem) (l : list PyItem) : nat :=
  length (filter (λ y, y = x) l).

Lemma value_counts_lookup (l : list PyItem) (x : PyItem) :
  value_counts l !! x =
  if decide (occurrences x l = 0) then None else Some (occurrences x l).
Proof.
  unfold occurrences. induction l as [|y l IH]; [done|].
  simpl. rewrite filter_cons. destruct (decide (y = x)) as [->|Hne].
  - rewrite lookup_insert_eq. simpl. rewrite IH.
    by destruct (decide (length (filter (λ y, y = x) l) = 0)) as [->|].
  - by rewrite lookup_insert_ne.
Qed.

Lemma smiles_all_items (rs : list Mol) (out : list PyItem) :
  smiles_all rs = Ok out → Forall (λ x, ∃ s, x = StrItem s) out.
Proof.
  revert out. induction rs as [|m rs IH]; intros out; simpl.
  - intros [= <-]. constructor.
  - destruct (MolToSmiles m) as [s|e]; simpl; [|done].
    destruct (smiles_all rs) as [rest|e]; simpl; [|done].
    intros [= <-]. constructor; [by exists s|by apply IH].
Qed.

(** The ring systems of one row, found on the row's molecule alone. *)
Definition row_ring_systems (smi : string) (found : list PyItem) : Prop :=
  ∃ mol, MolFromSmiles smi = Some mol ∧
         (find_ring_systems (Some 0) false false [mol]).1 = Ok found.

Lemma ring_dictionary_rows (smis : list string) :
  ∀ (acc l : list PyItem) (σ σ' : Store),
    for_eachM ring_dictionary_row smis acc σ = (Ok l, σ') →
    ∃ founds, Forall2 row_ring_systems smis founds ∧ l = acc ++ concat founds.
Proof.
  induction smis as [|smi smis IH]; intros acc l σ σ'; simpl.
  - intros [= <- <-]. exists []. split; [constructor|]. by rewrite app_nil_r.
  - unfold bind at 1. unfold ring_dictionary_row at 1. unfold parse_smiles, bind.
    destruct (MolFromSmiles smi) as [mol|] eqn:Hp; [|done].
    unfold alloc.
    destruct (find_ring_systems (Some (length σ)) false false (σ ++ [mol]))
      as [[found|e] σ1] eqn:Hrun; [|done].
    unfold ret. intros Hrest. apply IH in Hrest as (founds & Hall & ->).
    exists (found :: founds). split; [|by rewrite <- app_assoc].
    constructor; [|done]. exists mol. split; [done|].
    rewrite <- (text_mode_ext (σ ++ [mol]) [mol] (length σ) 0 mol mol false).
    + by rewrite Hrun.
    + by rewrite lookup_app_r, Nat.sub_diag by lia.
    + done.
    + done.
Qed.

(** X14. When [create_ring_dictionary] returns a table, every row parsed and
    its ring systems were found, and the table counts occurrences over the
    rows: a key is a string that some row's molecule has among its ring
    systems, and its count is the number of times it occurs in the rows'
    lists taken together, never 0. The ring systems of a row are those of its
    molecule alone; the rows before it make no difference. *)
Theorem create_ring_dictionary_counts (df : list (string * string)) (σ σ' : Store)
    (table : gmap PyItem nat) :
  create_ring_dictionary df σ = (Ok table, σ') →
  ∃ founds,
    Forall2 (λ smi found,
               ∃ mol, MolFromSmiles smi = Some mol ∧
                      (find_ring_systems (Some 0) false false [mol]).1 = Ok found)
            df.*1 founds ∧
    (∀ x, table !! x =
          if decide (length (filter (λ y, y = x) (concat founds)) = 0) then None
          else Some (length (filter (λ y, y = x) (concat founds)))) ∧
    (∀ x n, table !! x = Some n → 1 ≤ n ∧ ∃ s, x = StrItem s).
Proof.
  unfold create_ring_dictionary, bind.
  destruct (for_eachM ring_dictionary_row df.*1 [] σ) as [[l|e] σ1] eqn:Hloop; [|done].
  intros [= <- <-]. apply ring_dictionary_rows in Hloop as (founds & Hall & ->).
  simpl. exists founds. split; [exact Hall|]. split; [apply value_counts_lookup|].
  intros x n. rewrite value_counts_lookup. fold (occurrences x (concat founds)).
  destruct (decide (occurrences x (concat founds) = 0)) as [|Hne]; [done|].
  intros [= <-]. split; [lia|].
  assert (x ∈ concat founds) as Hin.
  { unfold occurrences in Hne. destruct (filter _ _) as [|y ys] eqn:Hf; [done|].
    assert (y ∈ filter (λ y, y = x) (concat founds)) as Hy by (rewrite Hf; by left).
    by apply list_elem_of_filter in Hy as [-> ?]. }
  apply list_elem_of_In, in_concat in Hin as (found & Hfound & Hx).
  apply list_elem_of_In in Hfound, Hx.
  apply list_elem_of_lookup in Hfound as [i Hi].
  destruct (Forall2_lookup_r _ _ _ _ _ Hall Hi) as (smi & _ & mol & _ & Hrun).
  rewrite (proj1 (find_ring_systems_value [mol] 0 mol false eq_refl)) in Hrun.
  destruct (ring_systems_on false mol) as [rs|e]; [|done]. simpl in Hrun.
  apply smiles_all_items in Hrun. rewrite Forall_forall in Hrun. by apply Hrun.
Qed.

Lemma process_smiles_ext (self : RingSystemLookup) (smi : string) (σ : Store) :
  (process_smiles self smi σ).1 = (process_smiles self smi []).1.
Proof.
  unfold process_smiles, parse_smiles, bind.
  destruct (MolFromSmiles smi) as [mol|]; [|done].
  unfold alloc, process_mol, bind. simpl.
  pose proof (text_mode_ext (σ ++ [mol]) [mol] (length σ) 0 mol mol false) as Hext.
  destruct (find_ring_systems (Some (length σ)) false false (σ ++ [mol])) as [r1 σ1].
  destruct (find_ring_systems (Some 0) false false [mol]) as [r2 σ2].
  simpl in Hext. rewrite Hext; [|by rewrite lookup_app_r, Nat.sub_diag by lia|done|done].
  by destruct r2.
Qed.

Lemma min_freq_ext (self : RingSystemLookup) (smi : string) (σ : Store) :
  (min_freq self smi σ).1 = (min_freq self smi []).1.
Proof.
  unfold min_freq, bind. pose proof (process_smiles_ext self smi σ) as Hext.
  destruct (process_smiles self smi σ) as [r1 σ1].
  destruct (process_smiles self smi []) as [r2 σ2].
  simpl in Hext. subst r2. destruct r1 as [fl|e]; [|done].
  by destruct (negb _).
Qed.

Lemma mapM_each {A B} (f : A → M B) (xs : list A) :
  ∀ (ys : list B) (σ σ' : Store),
    mapM f xs σ = (Ok ys, σ') → Forall2 (λ x y, ∃ σa, (f x σa).1 = Ok y) xs ys.
Proof.
  induction xs as [|x xs IH]; intros ys σ σ'; simpl.
  - intros [= <- <-]. constructor.
  - unfold bind at 1. destruct (f x σ) as [[y|e] σ1] eqn:Hx; [|done].
    unfold bind. destruct (mapM f xs σ1) as [[ys'|e] σ2] eqn:Hxs; [|done].
    intros [= <- <-]. constructor; [|by eapply IH].
    exists σ. by rewrite Hx.
Qed.

(** X15. When [test_ring_system_lookup] completes, the column has one value
    for each row, and the value of a row is the one computed for that row on
    its own: the rows before it make no difference. A row whose structure
    text does not parse gets [-1]. *)
Theorem test_ring_system_lookup_rows (ring_system_lookup : RingSystemLookup)
    (df : list (string * string)) (σ σ' : Store) (min_freq_list : list Z) :
  test_ring_system_lookup ring_system_lookup df σ = (Ok min_freq_list, σ') →
  length min_freq_list = length df ∧
  Forall2 (λ row res, (min_freq ring_system_lookup row.1 []).1 = Ok res) df min_freq_list ∧
  (∀ i row, df !! i = Some row → MolFromSmiles row.1 = None →
            min_freq_list !! i = Some (-1)%Z).
Proof.
  intros Hrun. apply mapM_each in Hrun.
  assert (Forall2 (λ row res, (min_freq ring_system_lookup row.1 []).1 = Ok res)
                  df min_freq_list) as Hall.
  { apply Forall2_fmap_l in Hrun. eapply Forall2_impl; [done|].
    intros row res [σa Ha]. simpl in Ha. by rewrite <- min_freq_ext with (σ := σa). }
  split; [symmetry; by eapply Forall2_length|]. split; [done|].
  intros i row Hi Hp. destruct (Forall2_lookup_l _ _ _ _ _ Hall Hi) as (res & Hres & Hval).
  rewrite Hres. f_equal. revert Hval.
  unfold min_freq, process_smiles, parse_smiles, bind. rewrite Hp. simpl. by intros [= <-].
Qed.

(** ** [RingSystemLookup.__init__] *)

(** [dict(ring_df[["ring_system", "count"]].values)]: the rows of the frame
    read from the csv file, entered in order. *)
Definition RingSystemLookup_init (ring_df : list (string * Z)) : RingSystemLookup :=
  mkLookup (foldl (λ d row, <[row.1 := row.2]> d) ∅ ring_df).

Lemma dict_of_rows_other (rows : list (string * Z)) (d : gmap string Z) (key : string) :
  key ∉ rows.*1 → foldl (λ d row, <[row.1 := row.2]> d) d rows !! key = d !! key.
Proof.
  revert d. induction rows as [|[k v] rows IH]; intros d Hk; [done|].
  simpl in *. apply not_elem_of_cons in Hk as [Hne Hk].
  rewrite IH by done. by rewrite lookup_insert_ne.
Qed.

(** X16. The table loaded from the rows of the csv file answers a string
    that no row has with nothing, which a query turns into count 0, and a
    string that rows have with the count of the last such row. *)
Theorem RingSystemLookup_init_lookup (ring_df : list (string * Z)) (s : string) :
  (s ∉ ring_df.*1 →
   ring_dict (RingSystemLookup_init ring_df) !! s = None ∧
   or_zero (dict_get (ring_dict (RingSystemLookup_init ring_df)) (StrItem s)) = 0%Z) ∧
  (∀ before count after, ring_df = before ++ (s, count) :: after → s ∉ after.*1 →
     ring_dict (RingSystemLookup_init ring_df) !! s = Some count ∧
     or_zero (dict_get (ring_dict (RingSystemLookup_init ring_df)) (StrItem s)) = count).
Proof.
  split.
  - intros Hs. assert (ring_dict (RingSystemLookup_init ring_df) !! s = None) as H.
    { simpl. by rewrite dict_of_rows_other. }
    split; [done|]. simpl in *. by rewrite H.
  - intros before count after -> Hs.
    assert (ring_dict (RingSystemLookup_init (before ++ (s, count) :: after)) !! s = Some count)
      as H.
    { simpl. rewrite foldl_app. simpl. rewrite dict_of_rows_other by done.
      apply lookup_insert_eq. }
    split; [done|]. simpl in *. rewrite H. simpl. by destruct (Z.eqb_spec count 0).
Qed.

(** ** The builder and the lookup together *)

(** X17. Against a table that holds the counts [create_ring_dictionary]
    computed from a corpus, a structure text of that corpus is answered
    without error, every ring system in the answer is a string with its
    count in the table, at least 1, and the value computed for it is [-1]
    (no ring system) or at least 1, never 0. *)
Theorem corpus_rows_are_known (df : list (string * string)) (σ σ' σq : Store)
    (table : gmap PyItem nat) (self : RingSystemLookup) (smi : string) :
  create_ring_dictionary df σ = (Ok table, σ') →
  (∀ s, ring_dict self !! s = Z.of_nat <$> table !! StrItem s) →
  smi ∈ df.*1 →
  ∃ freq_list res,
    (process_smiles self smi σq).1 = Ok freq_list ∧
    Forall (λ p, ∃ s n, p = (StrItem s, Z.of_nat n) ∧
                        table !! StrItem s = Some n ∧ 1 ≤ n) freq_list ∧
    (min_freq self smi σq).1 = Ok res ∧
    (res = (-1)%Z ∨ (1 ≤ res)%Z).
Proof.
  intros Hbuild Htable Hin.
  unfold create_ring_dictionary, bind in Hbuild.
  destruct (for_eachM ring_dictionary_row df.*1 [] σ) as [[l|e] σ1] eqn:Hloop; [|done].
  injection Hbuild as <- <-. apply ring_dictionary_rows in Hloop as (founds & Hall & ->).
  simpl in Htable |- *. apply list_elem_of_lookup in Hin as [i Hi].
  destruct (Forall2_lookup_l _ _ _ _ _ Hall Hi) as (found & Hfound & mol & Hp & Hrun).
  assert (Forall (λ x, ∃ s n, x = StrItem s ∧
                    value_counts (concat founds) !! StrItem s = Some n ∧ 1 ≤ n) found) as Hknown.
  { pose proof Hrun as Hitems.
    rewrite (proj1 (find_ring_systems_value [mol] 0 mol false eq_refl)) in Hitems.
    destruct (ring_systems_on false mol) as [rs|e]; [|done]. simpl in Hitems.
    apply smiles_all_items in Hitems. rewrite Forall_forall in Hitems.
    apply Forall_forall. intros x Hx. destruct (Hitems x Hx) as [s ->].
    exists s, (occurrences (StrItem s) (concat founds)).
    assert (StrItem s ∈ concat founds) as Hc.
    { apply list_elem_of_In, in_concat. exists found.
      split; apply list_elem_of_In; [by eapply list_elem_of_lookup_2|done]. }
    assert (occurrences (StrItem s) (concat founds) ≠ 0) as Hne.
    { unfold occurrences. intros H0%length_zero_iff_nil.
      assert (StrItem s ∈ filter (λ y, y = StrItem s) (concat founds)) as Hf
        by (by apply list_elem_of_filter).
      rewrite H0 in Hf. by apply elem_of_nil in Hf. }
    split; [done|]. rewrite value_counts_lookup, decide_False by done. split; [done|lia]. }
  set (answer := (λ x, (x, or_zero (dict_get (ring_dict self) x))) <$> found).
  assert ((process_smiles self smi σq).1 = Ok answer) as Hanswer.
  { rewrite process_smiles_ext. unfold process_smiles, parse_smiles, bind. rewrite Hp.
    unfold alloc, process_mol, bind. simpl.
    destruct (find_ring_systems (Some 0) false false [mol]) as [r σ2].
    simpl in Hrun. by rewrite Hrun. }
  assert (Forall (λ p, ∃ s n, p = (StrItem s, Z.of_nat n) ∧
                    value_counts (concat founds) !! StrItem s = Some n ∧ 1 ≤ n) answer)
    as Hcounts.
  { apply Forall_fmap. eapply Forall_impl; [exact Hknown|].
    intros x (s & n & -> & Hn & Hle). exists s, n. split; [|done]. simpl. f_equal.
    rewrite Htable, Hn. simpl. destruct (Z.eqb_spec (Z.of_nat n) 0); [lia|done]. }
  assert (∃ res, (min_freq self smi σq).1 = Ok res ∧ (res = (-1)%Z ∨ (1 ≤ res)%Z))
    as (res & Hres & Hbound).
  { unfold min_freq, bind. destruct (process_smiles self smi σq) as [r σ2].
    simpl in Hanswer. rewrite Hanswer.
    destruct answer as [|[x c] fl] eqn:Hfl; [by exists (-1)%Z; auto|].
    exists (foldl Z.min c fl.*2). split; [done|]. right.
    destruct (foldl_min_spec fl.*2 c) as [Hmin _].
    assert (Forall (λ c', 1 ≤ c')%Z (c :: fl.*2)) as Hall1.
    { change (c :: fl.*2) with (((x, c) :: fl).*2). apply Forall_fmap.
      eapply Forall_impl; [exact Hcounts|]. intros p (s & n & -> & _ & ?). simpl. lia. }
    rewrite Forall_forall in Hall1. by apply Hall1. }
  by exists answer, res.
Qed.

End Coverage.

Module CoverageExamples.
Import Toolkit Examples.

(** The toolkit with a [SanitizeMol] that rejects every molecule. *)
Definition unsanitary : Chem := {|
  MolFromSmiles := mol_from_smiles;
  MolToSmiles mol := Ok (line_notation mol);
  FragmentOnBonds := fragment_on_bonds;
  SanitizeMol mol := Raise (ToolkitError "valence");
  GetMolFrags mol := Ok (get_mol_frags mol);
  RemoveAllHs mol := Ok (remove_all_hs mol);
|}.

(** Two carbons joined by a double bond that carries a stereo designation. *)
Definition ethene_z : Mol :=
  mkMol [atom 6 false 0; atom 6 false 0] [mkBond 0 1 DOUBLE false STEREOZ ∅].

Lemma ethylbenzene_simple : simple_graph ethylbenzene.
Proof.
  intros i j bi bj Hi Hj Hjoin.
  do 8 (destruct i as [|i];
        [do 8 (destruct j as [|j];
               [injection Hi as <-; injection Hj as <-;
                first [reflexivity | discriminate Hjoin]|]);
         discriminate Hj|]).
  discriminate Hi.
Qed.

(** Cyclohexylbenzene, [c1ccccc1C1CCCCC1]: two rings joined by a single
    bond, the aromatic one first. *)
Definition cyclohexylbenzene : Mol :=
  mkMol (replicate 6 (atom 6 true 1) ++ replicate 6 (atom 6 false 1))
        (ring6 AROMATIC ++
         [bond 6 7 SINGLE true; bond 7 8 SINGLE true; bond 8 9 SINGLE true;
          bond 9 10 SINGLE true; bond 10 11 SINGLE true; bond 11 6 SINGLE true;
          bond 0 6 SINGLE false]).

(** C9, on cyclohexylbenzene, which has two ring systems. With [as_mols] the
    call returns two references; at the default it returns two strings, and
    they are the texts of the objects the references stand for, in the same
    order. *)
Lemma find_ring_systems_default_is_text_witness :
  (find_ring_systems (Some 0) false false [cyclohexylbenzene]).1 =
    Ok [StrItem "cccccc 0:1 1:2 2:3 3:4 4:5 5:0"; StrItem "CCCCCC 0-1 1-2 2-3 3-4 4-5 5-0"] ∧
  (find_ring_systems (Some 0) false true [cyclohexylbenzene]).1 =
    Ok [MolItem (Some 4); MolItem (Some 5)] ∧
  ∃ rs,
    ring_systems_on false cyclohexylbenzene = Ok rs ∧
    Forall2 (λ r m, ∃ l', r = Some l' ∧
               (find_ring_systems (Some 0) false false [cyclohexylbenzene]).2 !! l' = Some m)
            [Some 4; Some 5] rs ∧
    Forall2 (λ m item, ∃ s, MolToSmiles m = Ok s ∧ item = StrItem s) rs
            [StrItem "cccccc 0:1 1:2 2:3 3:4 4:5 5:0"; StrItem "CCCCCC 0-1 1-2 2-3 3-4 4-5 5-0"].
Proof.
  assert ((find_ring_systems (Some 0) false false [cyclohexylbenzene]).1 =
          Ok [StrItem "cccccc 0:1 1:2 2:3 3:4 4:5 5:0";
              StrItem "CCCCCC 0-1 1-2 2-3 3-4 4-5 5-0"]) as Htext
    by (vm_compute; reflexivity).
  assert ((find_ring_systems (Some 0) false true [cyclohexylbenzene]).1 =
          Ok [MolItem (Some 4); MolItem (Some 5)]) as Hmols
    by (vm_compute; reflexivity).
  split; [exact Htext|]. split; [exact Hmols|].
  destruct (find_ring_systems_default_is_text [cyclohexylbenzene] 0 cyclohexylbenzene false
              eq_refl) as [Hstore Hmodes].
  destruct (ring_systems_on false cyclohexylbenzene) as [rs|e].
  - destruct Hmodes as ((refs & Hout & Hrefs) & _ & Hiff).
    exists rs. split; [reflexivity|].
    rewrite Hmols in Hout.
    destruct refs as [|r1 [|r2 [|? ?]]];
      [discriminate Hout|discriminate Hout| |discriminate Hout].
    injection Hout as <- <-.
    split; [rewrite Hstore; exact Hrefs|]. apply Hiff. exact Htext.
  - destruct Hmodes as [_ Hraise]. rewrite Htext in Hraise. discriminate Hraise.
Defined.

(** X3, on ethylbenzene. *)
Lemma cut_set_after_tagging_witness :
  ∃ mol' cuts,
    tag_bonds_to_preserve_on ethylbenzene = Ok mol' ∧
    frag_bond_list mol' = Ok cuts ∧
    ∀ i, i ∈ cuts ↔
         ∃ bnd, bonds ethylbenzene !! i = Some bnd ∧ IsInRing bnd = false ∧
                GetBondType bnd = SINGLE.
Proof. exact (cut_set_after_tagging ethylbenzene ethylbenzene_simple). Defined.

(** X4, on ethylbenzene as parsed, before any tagging. *)
Lemma cleave_linker_bonds_unset_flag_witness :
  cleave_linker_bonds (Some 0) [ethylbenzene] = (Raise KeyError, [ethylbenzene]).
Proof.
  destruct (cleave_linker_bonds_unset_flag [ethylbenzene] 0 ethylbenzene eq_refl)
    as (Hiff & _ & Hraise).
  apply Hraise, Hiff. exists (bond 0 6 SINGLE false). split; [|done].
  unfold ethylbenzene. simpl. do 6 right. left.
Defined.

(** X5, on tagged ethylbenzene. *)
Lemma frag_bond_list_sorted_witness :
  Forall (λ i, i < 8) [6; 7] ∧ StronglySorted lt [6; 7] ∧ NoDup [6; 7].
Proof. exact (frag_bond_list_sorted (tagged ethylbenzene) [6; 7] eq_refl). Defined.

(** X6, on tagged ethylbenzene with the toolkit whose [SanitizeMol] raises. *)
Lemma cleave_linker_bonds_propagates_witness :
  ∃ fm, @cleave_linker_bonds unsanitary (Some 0) [tagged ethylbenzene] =
        (Raise (ToolkitError "valence"), [tagged ethylbenzene] ++ [fm]).
Proof.
  destruct (@cleave_linker_bonds_propagates unsanitary [tagged ethylbenzene] 0
              (tagged ethylbenzene) [6; 7] eq_refl eq_refl) as [_ H]; [done|].
  eexists. apply H; reflexivity.
Defined.

(** X7, on a double bond between two atoms of degree 1. *)
Lemma fix_bond_stereo_frame_witness :
  fix_bond_stereo (Some 0) [ethene_z] =
    (Ok (Some 0), [mkMol [atom 6 false 0; atom 6 false 0]
                         [mkBond 0 1 DOUBLE false STEREONONE ∅]]).
Proof. exact (proj1 (fix_bond_stereo_frame [ethene_z] 0 ethene_z eq_refl)). Defined.

(** X9, on ethylbenzene: one fragment, kept. *)
Lemma cleanup_fragments_keeps_ring_fragments_witness :
  NoDup [Some 2] ∧
  ∀ l0, l0 < 1 → (cleanup_fragments (Some 0) false [ethylbenzene]).2 !! l0 =
                 [ethylbenzene] !! l0.
Proof.
  assert (cleanup_fragments (Some 0) false [ethylbenzene] =
          (Ok [Some 2], (cleanup_fragments (Some 0) false [ethylbenzene]).2)) as Hrun
    by (vm_compute; reflexivity).
  exact (proj2 (cleanup_fragments_keeps_ring_fragments [ethylbenzene] _ 0 ethylbenzene
                  (get_mol_frags ethylbenzene) false [Some 2] eq_refl eq_refl Hrun)).
Defined.

(** X10, on ethanol. *)
Lemma cleanup_fragments_no_ring_witness :
  cleanup_fragments (Some 0) false [ethanol] = (Ok [], [ethanol] ++ get_mol_frags ethanol).
Proof.
  apply (cleanup_fragments_no_ring [ethanol] 0 ethanol); [reflexivity..|].
  vm_compute. repeat constructor.
Defined.

(** X11, on ethylbenzene as parsed and, in another store at another place,
    ethylbenzene with its flags set. *)
Lemma find_ring_systems_text_of_molecule_witness :
  (find_ring_systems (Some 0) false false [ethylbenzene]).1 =
  (find_ring_systems (Some 1) false false [benzene; tagged ethylbenzene]).1.
Proof.
  apply (find_ring_systems_text_of_molecule _ _ _ _ ethylbenzene (tagged ethylbenzene));
    [reflexivity..|].
  unfold tagged, ethylbenzene. simpl.
  repeat (constructor; [repeat (split; [done|]); intros key Hkey; simpl;
                        by rewrite lookup_insert_ne|]).
  constructor.
Defined.

(** X12, on ethylbenzene. *)
Lemma find_ring_systems_repeatable_witness :
  (find_ring_systems (Some 0) false false
     (find_ring_systems (Some 0) true true [ethylbenzene]).2).1 =
  (find_ring_systems (Some 0) false false [ethylbenzene]).1.
Proof. exact (find_ring_systems_repeatable [ethylbenzene] 0 ethylbenzene false true true eq_refl). Defined.

(** X13, on ethylbenzene. *)
Lemma find_ring_systems_returns_new_objects_witness :
  ∃ refs, [MolItem (Some 5)] = MolItem <$> refs ∧ NoDup refs ∧
          Forall (λ r, ∃ l', r = Some l' ∧
                    1 ≤ l' < length (find_ring_systems (Some 0) true true [ethylbenzene]).2) refs.
Proof.
  assert (find_ring_systems (Some 0) true true [ethylbenzene] =
          (Ok [MolItem (Some 5)], (find_ring_systems (Some 0) true true [ethylbenzene]).2))
    as Hrun by (vm_compute; reflexivity).
  exact (find_ring_systems_returns_new_objects [ethylbenzene] _ 0 ethylbenzene true _
           eq_refl Hrun).
Defined.

(** X14, on a corpus of two rows with the same ring system. *)
Lemma create_ring_dictionary_counts_witness :
  ∃ founds,
    Forall2 (λ smi found,
               ∃ mol, MolFromSmiles smi = Some mol ∧
                      (find_ring_systems (Some 0) false false [mol]).1 = Ok found)
            ["c1ccccc1"; "CCc1ccccc1"] founds ∧
    (∀ x n, value_counts [StrItem "cccccc 0:1 1:2 2:3 3:4 4:5 5:0";
                          StrItem "cccccc 0:1 1:2 2:3 3:4 4:5 5:0"] !! x = Some n →
            1 ≤ n ∧ ∃ s, x = StrItem s).
Proof.
  set (df := [("c1ccccc1", "a"); ("CCc1ccccc1", "b")]).
  set (key := "cccccc 0:1 1:2 2:3 3:4 4:5 5:0").
  assert (for_eachM ring_dictionary_row df.*1 [] [] =
          (Ok [StrItem key; StrItem key],
           (for_eachM ring_dictionary_row df.*1 [] []).2)) as Hloop
    by (vm_compute; reflexivity).
  assert (create_ring_dictionary df [] =
          (Ok (value_counts [StrItem key; StrItem key]),
           (for_eachM ring_dictionary_row df.*1 [] []).2)) as Hrun
    by (unfold create_ring_dictionary, bind; rewrite Hloop; reflexivity).
  clear Hloop.
  destruct (create_ring_dictionary_counts _ _ _ _ Hrun) as (founds & Hall & _ & Hkeys).
  clear Hrun. exists founds. split; [exact Hall|exact Hkeys].
Defined.

(** X15, on two rows, the first of which does not parse. *)
Lemma test_ring_system_lookup_rows_witness :
  [(-1)%Z; 0%Z] !! 0 = Some (-1)%Z.
Proof.
  assert (test_ring_system_lookup (mkLookup ∅)
            [("not a structure", "a"); ("CCc1ccccc1", "b")] [] =
          (Ok [(-1)%Z; 0%Z],
           (test_ring_system_lookup (mkLookup ∅)
              [("not a structure", "a"); ("CCc1ccccc1", "b")] []).2)) as Hrun
    by (vm_compute; reflexivity).
  destruct (test_ring_system_lookup_rows _ _ _ _ _ Hrun) as (_ & _ & Hbad).
  exact (Hbad 0 ("not a structure", "a") eq_refl eq_refl).
Defined.

(** X17, on the corpus of one row, benzene, and the table holding its count. *)
Lemma corpus_rows_are_known_witness :
  ∃ freq_list res,
    (process_smiles (mkLookup {["cccccc 0:1 1:2 2:3 3:4 4:5 5:0" := 1%Z]}) "c1ccccc1" []).1 =
      Ok freq_list ∧
    (min_freq (mkLookup {["cccccc 0:1 1:2 2:3 3:4 4:5 5:0" := 1%Z]}) "c1ccccc1" []).1 =
      Ok res ∧
    (res = (-1)%Z ∨ (1 ≤ res)%Z).
Proof.
  set (df := [("c1ccccc1", "a")]).
  set (key := "cccccc 0:1 1:2 2:3 3:4 4:5 5:0").
  assert (for_eachM ring_dictionary_row df.*1 [] [] =
          (Ok [StrItem key], (for_eachM ring_dictionary_row df.*1 [] []).2)) as Hloop
    by (vm_compute; reflexivity).
  assert (create_ring_dictionary df [] =
          (Ok (value_counts [StrItem key]),
           (for_eachM ring_dictionary_row df.*1 [] []).2)) as Hrun
    by (unfold create_ring_dictionary, bind; rewrite Hloop; reflexivity).
  clear Hloop.
  destruct (corpus_rows_are_known _ _ _ [] _ (mkLookup {[key := 1%Z]}) "c1ccccc1" Hrun)
    as (freq_list & res & Hanswer & _ & Hres & Hbound).
  - clear Hrun. intros s. rewrite value_counts_lookup. unfold occurrences.
    rewrite filter_cons, filter_nil.
    destruct (decide (StrItem key = StrItem s)) as [Heq|Hne]; simpl.
    + injection Heq as <-. rewrite lookup_singleton_eq. reflexivity.
    + rewrite lookup_singleton_ne by congruence. reflexivity.
  - clear Hrun. left.
  - clear Hrun. exists freq_list, res. split; [exact Hanswer|]. split; [exact Hres|exact Hbound].
Defined.

End CoverageExamples.
